(** * Candidate generation and probing in [features/link_cmd.py]

    A shallow embedding of the URL generator of the bot (tag extraction,
    gacha-name expansion, cartesian expansion with the combination ceiling,
    percent-encoding, the banner composite) and of the single-URL prober,
    with the properties of these functions proved over the embedding.

    Conventions.
    - A Python [str] is a Rocq [string]: the sequence of the bytes of its
      UTF-8 encoding.  The regular expressions of the module only name ASCII
      characters and [urllib.parse.quote] works on the UTF-8 bytes, so these
      are modelled for every string.  [str.lower], [str.title],
      [str.capitalize] and [str.upper] are modelled on the ASCII letters;
      statements that depend on them are made for ASCII text ([ascii_text]).
    - A Python [int] is a [Z]; a [list] is a [list]; the [dict] of tag values
      is a [gmap string (list string)]; the [set] of seen values is a
      [gset string].
    - A call that may raise returns a [result]. *)

From Stdlib Require Import ZArith Ascii String DecimalString.
From stdpp Require Import gmap strings list.

Local Open Scope Z_scope.

(** ** Exceptions *)

Inductive exn : Type :=
  | ValueError (msg : string)  (* raised by the generator, with its message *)
  | IndexError                 (* a tuple indexed out of range *)
  | TypeError                  (* a pattern applied to [None] *)
  | TransportError.            (* a request that failed or timed out *)

Inductive result (A : Type) : Type :=
  | Ok (a : A)
  | Raise (e : exn).
Arguments Ok {A} a.
Arguments Raise {A} e.

Global Instance result_ret : MRet result := fun A a => Ok a.

Global Instance result_bind : MBind result := fun A B k r =>
  match r with
  | Ok a => k a
  | Raise e => Raise e
  end.

(** ** Strings *)

Module Str.

(** [c in s] for a one-character [c]. *)
Fixpoint mem (c : ascii) (s : string) : bool :=
  match s with
  | EmptyString => false
  | String d s' => if decide (c = d) then true else mem c s'
  end.

(** [s.count(c)] for a one-character [c]. *)
Fixpoint count (c : ascii) (s : string) : nat :=
  match s with
  | EmptyString => 0%nat
  | String d s' => ((if decide (c = d) then 1 else 0) + count c s')%nat
  end.

Fixpoint all (p : ascii -> bool) (s : string) : bool :=
  match s with
  | EmptyString => true
  | String d s' => p d && all p s'
  end.

(** [s.startswith(p)] *)
Fixpoint startswith (p s : string) : bool :=
  match p, s with
  | EmptyString, _ => true
  | String a p', String b s' => if decide (a = b) then startswith p' s' else false
  | String _ _, EmptyString => false
  end.

(** [p in s] for strings: some suffix of [s] starts with [p]. *)
Fixpoint contains (p s : string) : bool :=
  startswith p s ||
  match s with
  | EmptyString => false
  | String _ s' => contains p s'
  end.

Fixpoint concat (l : list string) : string :=
  match l with
  | [] => ""
  | s :: l' => s +:+ concat l'
  end.

(** [s.replace(old, new)] scans [s] from the left; at an occurrence of
    [old] it emits [new] and resumes after the occurrence.  [skip] counts
    the characters of a replaced occurrence that are still to be passed.
    For the empty [old] Python inserts [new] before every character and at
    the end. *)
Fixpoint replace_from (skip : nat) (s old new : string) : string :=
  match s with
  | EmptyString => ""
  | String c s' =>
      match skip with
      | S k => replace_from k s' old new
      | O =>
          if startswith old s
          then new +:+ replace_from (String.length old - 1) s' old new
          else String c (replace_from 0 s' old new)
      end
  end.

Fixpoint intersperse (s new : string) : string :=
  match s with
  | EmptyString => new
  | String c s' => new +:+ String c (intersperse s' new)
  end.

Definition replace (s old new : string) : string :=
  match old with
  | EmptyString => intersperse s new
  | String _ _ => replace_from 0 s old new
  end.

End Str.

(** ** Characters *)

Definition code (c : ascii) : N := N_of_ascii c.

Definition is_upper (c : ascii) : bool := ((65 <=? code c) && (code c <=? 90))%N.
Definition is_lower (c : ascii) : bool := ((97 <=? code c) && (code c <=? 122))%N.
Definition is_digit (c : ascii) : bool := ((48 <=? code c) && (code c <=? 57))%N.
Definition is_alpha (c : ascii) : bool := is_upper c || is_lower c.

(** The class [[A-Za-z0-9]] of [_tag_re] and of [valid_tags]. *)
Definition is_alnum (c : ascii) : bool := is_alpha c || is_digit c.

(** ASCII whitespace as Python's [\s] sees it. *)
Definition is_space (c : ascii) : bool :=
  (((9 <=? code c) && (code c <=? 13)) || ((28 <=? code c) && (code c <=? 32)))%N.

Definition is_ascii (c : ascii) : bool := (code c <? 128)%N.

Definition ascii_text (s : string) : Prop := Str.all is_ascii s = true.

Definition to_lower (c : ascii) : ascii :=
  if is_upper c then ascii_of_N (code c + 32) else c.
Definition to_upper (c : ascii) : ascii :=
  if is_lower c then ascii_of_N (code c - 32) else c.

Fixpoint lower (s : string) : string :=
  match s with
  | EmptyString => ""
  | String c s' => String (to_lower c) (lower s')
  end.

Fixpoint upper (s : string) : string :=
  match s with
  | EmptyString => ""
  | String c s' => String (to_upper c) (upper s')
  end.

(** [str.title]: a letter that follows a cased character is lower-cased,
    any other letter is upper-cased. *)
Fixpoint title_from (previous_is_cased : bool) (s : string) : string :=
  match s with
  | EmptyString => ""
  | String c s' =>
      String (if previous_is_cased then to_lower c else to_upper c)
             (title_from (is_alpha c) s')
  end.

Definition title (s : string) : string := title_from false s.

(** [str.capitalize]: first character upper-cased, the rest lower-cased. *)
Definition capitalize (s : string) : string :=
  match s with
  | EmptyString => ""
  | String c s' => String (to_upper c) (lower s')
  end.

(** [str.isdigit] on ASCII text: non-empty and all decimal digits. *)
Definition isdigit (s : string) : bool :=
  match s with
  | EmptyString => false
  | String _ _ => Str.all is_digit s
  end.

(** ** Configuration and templates *)

Definition MAX_COMBINATIONS : Z := 20000.

Definition TEMPLATE_GACHA : string :=
  "https://dl.dir.freefiremobile.com/common/OB[V]/CSH/gacha/[G]_[E]xxx_[T]_TabID_ind.jpg".
Definition TEMPLATE_BANNER_SPLASH : string :=
  "https://dl.dir.freefiremobile.com/common/OB[V]/ID/[T]_[E]/splash.jpg".
Definition TEMPLATE_BANNER_OVERVIEW : string :=
  "https://dl.dir.freefiremobile.com/common/OB[V]/ID/[T]_[E]/overview.jpg".

Definition OVERVIEW_VARIANTS : list string :=
  ["overview"; "viewover"; "overivew"; "rivervow"; "vowover"].

(** ** Tag extraction *)

(** The longest run of [[A-Za-z0-9]] at the head of [s], and what follows. *)
Fixpoint span_alnum (s : string) : string * string :=
  match s with
  | EmptyString => ("", "")
  | String c s' =>
      if is_alnum c
      then let (run, rest) := span_alnum s' in (String c run, rest)
      else ("", s)
  end.

(** One attempt of [_tag_re = \[([A-Za-z0-9]+)\]] at the head of [s]: the
    captured group and the text after the match.  The greedy run is
    maximal; giving characters back cannot help, since the character after
    a shorter run is alphanumeric and not the closing bracket. *)
Definition match_tag (s : string) : option (string * string) :=
  match s with
  | String "[" s1 =>
      match span_alnum s1 with
      | (String c run, String "]" rest) => Some (String c run, rest)
      | _ => None
      end
  | _ => None
  end.

(** [_tag_re.findall]: non-overlapping matches from the left; after a match
    of [[tag]] the scan resumes behind the closing bracket. *)
Fixpoint findall_from (skip : nat) (s : string) : list string :=
  match s with
  | EmptyString => []
  | String c s' =>
      match skip with
      | S k => findall_from k s'
      | O =>
          match match_tag s with
          | Some (tag, _) => tag :: findall_from (S (String.length tag)) s'
          | None => findall_from 0 s'
          end
      end
  end.

Definition extract_tags (template : string) : list string :=
  findall_from 0 template.

(** [re.fullmatch(r'[A-Za-z0-9]+', t)] *)
Definition fullmatch_alnum (t : string) : bool :=
  match span_alnum t with
  | (String _ _, EmptyString) => true
  | _ => false
  end.

Definition valid_tags (tags : list string) : bool :=
  forallb fullmatch_alnum tags.

(** ** Gacha-name expansion *)

(** [if x not in variants: variants.append(x)] *)
Definition append_if_absent (variants : list string) (x : string) : list string :=
  if decide (x ∈ variants) then variants else variants ++ [x].

(** The loop [for v in xs: if v not in seen: seen.add(v); uniq.append(v)]. *)
Fixpoint dedupe_loop (xs : list string) (seen : gset string) (uniq : list string)
  : list string :=
  match xs with
  | [] => uniq
  | x :: xs' =>
      if decide (x ∈ seen)
      then dedupe_loop xs' seen uniq
      else dedupe_loop xs' (seen ∪ {[x]}) (uniq ++ [x])
  end.

Definition dedupe (xs : list string) : list string := dedupe_loop xs ∅ [].

(** The values of a list in the order of their first occurrence. *)
Definition first_seen (xs : list string) : list string :=
  foldl append_if_absent [] xs.

(** The class [[\s_-]] of the separator pattern. *)
Definition is_sep (c : ascii) : bool :=
  is_space c || bool_decide (c = "_"%char) || bool_decide (c = "-"%char).

(** [re.split(r'[\s_-]+', s)]: the pieces between the maximal runs of
    separators; a run at either end leaves an empty piece there.  [cur] is
    the piece being read, [in_run] tells that the previous character was a
    separator. *)
Fixpoint re_split_from (cur : string) (in_run : bool) (s : string) : list string :=
  match s with
  | EmptyString => [cur]
  | String c s' =>
      if is_sep c
      then (if in_run then re_split_from "" true s'
            else cur :: re_split_from "" true s')
      else re_split_from (cur +:+ String c "") false s'
  end.

Definition re_split_seps (s : string) : list string := re_split_from "" false s.

Definition expand_gacha_name_base (name : string) : list string :=
  let variants := [] in
  let orig := name in
  let variants := append_if_absent variants orig in
  let titled := title orig in
  let variants := append_if_absent variants titled in
  let lowered := lower orig in
  let variants := append_if_absent variants lowered in
  let variants :=
    if Str.contains "token" lowered && Str.contains "wheel" lowered
    then
      let parts := re_split_seps lowered in
      let camel := Str.concat (capitalize <$> parts) in
      append_if_absent variants camel
    else variants in
  dedupe variants.

(** [str(i)] for an integer. *)
Definition str_of_int (i : Z) : string := NilZero.string_of_int (Z.to_int i).

(** What the inner loops append for one base [b]: [b] itself, then
    [f"{b}-{i}"] for [i] in [range(2, 7)]. *)
Definition with_suffixes (b : string) : list string :=
  b :: ((fun i => b +:+ "-" +:+ str_of_int i) <$> seqZ 2 5).

Definition expand_gacha_values (values_list : list string) : list string :=
  let out := values_list ≫= (fun v => expand_gacha_name_base v ≫= with_suffixes) in
  dedupe out.

(** ** Percent-encoding *)

(** The characters [urllib.parse.quote] never encodes. *)
Definition always_safe (c : ascii) : bool := is_alnum c || Str.mem c "_.-~".

Definition hex_digit (n : N) : ascii :=
  match String.get (N.to_nat n) "0123456789ABCDEF" with
  | Some d => d
  | None => "0"%char
  end.

(** ['%{:02X}'.format(byte)] *)
Definition percent (c : ascii) : string :=
  String "%" (String (hex_digit (code c / 16)) (String (hex_digit (code c mod 16)) "")).

Definition quote_char (safe : string) (c : ascii) : string :=
  if always_safe c || (is_ascii c && Str.mem c safe) then String c "" else percent c.

(** [quote(s, safe=safe)] *)
Fixpoint quote (s safe : string) : string :=
  match s with
  | EmptyString => ""
  | String c s' => quote_char safe c +:+ quote s' safe
  end.

(** The characters [quote] can produce with an empty [safe]. *)
Definition quoted_char (c : ascii) : bool :=
  always_safe c || bool_decide (c = "%"%char).

(** ** URL generation *)

(** [itertools.product] over the lists: the last list varies fastest. *)
Fixpoint product (lists : list (list string)) : list (list string) :=
  match lists with
  | [] => [[]]
  | l :: ls => l ≫= (fun x => cons x <$> product ls)
  end.

(** The marker [f'[{t}]'] of a tag. *)
Definition marker (t : string) : string := "[" +:+ t +:+ "]".

(** The inner loop [for i, t in enumerate(tags): u = u.replace(...)], from
    index [i] on; [combo[i]] raises when [i] is out of range. *)
Fixpoint substitute (u : string) (i : nat) (tags combo : list string) : result string :=
  match tags with
  | [] => Ok u
  | t :: ts =>
      match combo !! i with
      | Some value => substitute (Str.replace u (marker t) (quote value "")) (S i) ts combo
      | None => Raise IndexError
      end
  end.

(** The loop that multiplies the lengths and raises at the first running
    product above the ceiling; [message] renders the text of the error. *)
Fixpoint check_total (message : Z -> string) (total : Z) (lists : list (list string))
  : result Z :=
  match lists with
  | [] => Ok total
  | l :: ls =>
      let total := total * Z.of_nat (length l) in
      if decide (total > MAX_COMBINATIONS)
      then Raise (ValueError (message total))
      else check_total message total ls
  end.

Definition overflow_message (total : Z) : string :=
  "Jumlah Kombinasi (" +:+ str_of_int total
    +:+ ") Terlalu Banyak. Kurangi Jumlah Huruf/Angka Di Tag.".

(** The loop that prepares one value list per tag occurrence; [None] is the
    early [return []] at a tag without values. *)
Fixpoint collect_lists (tag_values : gmap string (list string))
    (tags : list string) (lists : list (list string)) : option (list (list string)) :=
  match tags with
  | [] => Some lists
  | t :: ts =>
      let vals := default [] (tag_values !! t) in
      match vals with
      | [] => None
      | _ :: _ =>
          if decide (upper t = "G")
          then collect_lists tag_values ts (lists ++ [expand_gacha_values vals])
          else collect_lists tag_values ts (lists ++ [vals])
      end
  end.

(** [__generate_urls_from_template_impl] (line 471). *)
Definition generate_urls_from_template_impl (template : string)
    (tag_values : gmap string (list string)) : result (list string) :=
  let tags := extract_tags template in
  match tags with
  | [] => Ok []
  | _ :: _ =>
      match collect_lists tag_values tags [] with
      | None => Ok []
      | Some lists =>
          _ ← check_total overflow_message 1 lists;
          mapM (fun combo => substitute template 0 tags combo) (product lists)
      end
  end.

(** The definition of [generate_urls_from_template] that is in force when
    the handlers run (line 460): a wrapper of the one above. *)
Definition generate_urls_from_template (template : string)
    (tag_values : gmap string (list string)) : result (list string) :=
  generate_urls_from_template_impl template tag_values.

(** *** The first definition of the module (line 225), shadowed later *)

Definition overflow_message_shadowed (total : Z) : string :=
  "Jumlah kombinasi (" +:+ str_of_int total
    +:+ ") terlalu besar. Kurangi jumlah nilai per tag.".

Fixpoint collect_lists_shadowed (tag_values : gmap string (list string))
    (tags : list string) (lists : list (list string)) : option (list (list string)) :=
  match tags with
  | [] => Some lists
  | t :: ts =>
      let vals := default [] (tag_values !! t) in
      match vals with
      | [] => None
      | _ :: _ =>
          if decide (upper t = "G")
          then collect_lists_shadowed tag_values ts (lists ++ [expand_gacha_values vals])
          else if bool_decide (upper t = "T") && forallb isdigit vals
          then collect_lists_shadowed tag_values ts (lists ++ [vals])
          else collect_lists_shadowed tag_values ts (lists ++ [vals])
      end
  end.

Definition generate_urls_from_template_shadowed (template : string)
    (tag_values : gmap string (list string)) : result (list string) :=
  let tags := extract_tags template in
  match tags with
  | [] => Ok []
  | _ :: _ =>
      match collect_lists_shadowed tag_values tags [] with
      | None => Ok []
      | Some lists =>
          _ ← check_total overflow_message_shadowed 1 lists;
          mapM (fun combo => substitute template 0 tags combo) (product lists)
      end
  end.

(** *** Notions used to state the properties of the generator *)

(** [tag_values.get(t, [])] *)
Definition values_of (tag_values : gmap string (list string)) (t : string)
  : list string :=
  default [] (tag_values !! t).

(** The value list a tag occurrence contributes to the product. *)
Definition working_list (tag_values : gmap string (list string)) (t : string)
  : list string :=
  if decide (upper t = "G")
  then expand_gacha_values (values_of tag_values t)
  else values_of tag_values t.

Definition lengths (lists : list (list string)) : list Z :=
  (fun l => Z.of_nat (length l)) <$> lists.

(** The lengths of the working lists, one per tag occurrence, in the order
    of the template. *)
Definition working_lengths (template : string)
    (tag_values : gmap string (list string)) : list Z :=
  lengths (working_list tag_values <$> extract_tags template).

Definition Zprod (ns : list Z) : Z := foldr Z.mul 1 ns.

(** One URL: the markers of the tags replaced in turn by the encoded values
    of the combination. *)
Fixpoint materialize (u : string) (tags combo : list string) : string :=
  match tags, combo with
  | t :: ts, value :: rest =>
      materialize (Str.replace u (marker t) (quote value "")) ts rest
  | _, _ => u
  end.

(** *** Templates by their parts *)

(** A template read as a leading text and, for each marker, its tag and the
    text that follows it. *)
Fixpoint render (gap : string) (parts : list (string * string)) : string :=
  match parts with
  | [] => gap
  | (t, g) :: ps => gap +:+ marker t +:+ render g ps
  end.

(** The same texts with the encoded values in the place of the markers; a
    marker without a value stays. *)
Fixpoint fill (gap : string) (parts : list (string * string)) (values : list string)
  : string :=
  match parts, values with
  | (t, g) :: ps, value :: rest => gap +:+ quote value "" +:+ fill g ps rest
  | _, _ => render gap parts
  end.

(** The markers are all the opening brackets of the template, and no tag
    occurs twice. *)
Definition plain_template (gap : string) (parts : list (string * string)) : Prop :=
  Str.mem "[" gap = false /\
  Forall (fun p => fullmatch_alnum p.1 = true /\ Str.mem "[" p.2 = false) parts /\
  NoDup parts.*1.

(** ** The end of [handle_tag_input] *)

(** The messages the handler sends, by kind. *)
Inductive reply : Type :=
  | NoTagInTemplate                 (* "Template Link Tidak Valid, Tidak Ada Tag ..." *)
  | TagsMustBeAlphanumeric          (* "Tag Hanya Boleh Huruf/Angka. ..." *)
  | TemplateAccepted (first : string) (* "Template Diterima. Masukkan ... [first] ..." *)
  | ErrorText (text : string)       (* [str(e)] of a [ValueError] *)
  | GenerationFailed                (* "Terjadi Error Saat Generate Link, Coba Lagi." *)
  | NothingGenerated                (* "Tidak Ada Link Yang Di Generate. ..." *)
  | TotalGenerated (total : nat)    (* "Total Link Yang Di Generate: total. ..." *)
  | ProgressStarted (total : nat)   (* the progress message at 0% *)
  | NotFound.                       (* the progress message edited to the failure text *)

(** The branch that receives a custom template (lines 355-371), for the
    stripped, non-empty [text]: the reply, and the template and tags stored
    in [user_data] when the template is accepted. *)
Definition receive_custom_template (text : string)
  : reply * option (string * list string) :=
  let template := text in
  let tags := extract_tags template in
  match tags with
  | [] => (NoTagInTemplate, None)
  | first :: _ =>
      if negb (valid_tags tags)
      then (TagsMustBeAlphanumeric, None)
      else (TemplateAccepted first, Some (template, tags))
  end.

(** The [try] block that builds the candidate list (lines 401-427), with
    the template stored under ['template'] ([None] when the key is absent)
    and the collected tag values. *)
Definition build_urls (template_marker : option string)
    (tag_values : gmap string (list string)) : result (list string) :=
  if decide (template_marker = Some "BANNER")
  then
    let splash_template := TEMPLATE_BANNER_SPLASH in
    let overview_template := TEMPLATE_BANNER_OVERVIEW in
    splash_urls ← generate_urls_from_template splash_template tag_values;
    base_ov_urls ← generate_urls_from_template overview_template tag_values;
    let ov_urls :=
      base_ov_urls ≫= (fun base =>
        (fun v => Str.replace base "/overview.jpg" ("/" +:+ v +:+ ".jpg"))
          <$> OVERVIEW_VARIANTS) in
    Ok (splash_urls ++ ov_urls)
  else
    match template_marker with
    | Some template => generate_urls_from_template template tag_values
    | None => Raise TypeError
    end.

(** What follows the [try] block (lines 429-455): the messages sent once
    all tags are collected.  [find_first_live_url] is the search, taken
    here by its outcome on the candidate list. *)
Definition finish_tag_input (find_first_live_url : list string -> option string)
    (template_marker : option string) (tag_values : gmap string (list string))
  : list reply :=
  match build_urls template_marker tag_values with
  | Raise (ValueError text) => [ErrorText text]
  | Raise _ => [GenerationFailed]
  | Ok [] => [NothingGenerated]
  | Ok urls =>
      let total := length urls in
      match find_first_live_url urls with
      | None => [TotalGenerated total; ProgressStarted total; NotFound]
      | Some _ => [TotalGenerated total; ProgressStarted total]
      end
  end.

(** *** The banner candidates, by their parts *)

(** What the two banner templates share up to the file name, for one
    combination of a version, a date and an event name. *)
Definition banner_stem (combo : list string) : string :=
  match combo with
  | [v; t; e] =>
      "https://dl.dir.freefiremobile.com/common/OB" +:+ quote v ""
        +:+ "/ID/" +:+ quote t "" +:+ "_" +:+ quote e ""
  | _ => ""
  end.

(** The value lists of the three tags of the banner templates. *)
Definition banner_lists (tag_values : gmap string (list string))
  : list (list string) :=
  [values_of tag_values "V"; values_of tag_values "T"; values_of tag_values "E"].

Definition banner_splash (combos : list (list string)) : list string :=
  (fun c => banner_stem c +:+ "/splash.jpg") <$> combos.

Definition banner_overview (combos : list (list string)) : list string :=
  (fun c => banner_stem c +:+ "/overview.jpg") <$> combos.

(** For each combination, the stem followed by each spelling as the file
    name. *)
Definition banner_overview_variants (combos : list (list string)) : list string :=
  combos ≫= (fun c =>
    (fun spelling => banner_stem c +:+ "/" +:+ spelling +:+ ".jpg")
      <$> OVERVIEW_VARIANTS).

(** ** The prober *)

Inductive http_method : Type := HEAD | GET.

(** A request as [check_url] issues it: the method, the URL and the
    [total] of its [ClientTimeout]. *)
Record request : Type := Request {
  method : http_method;
  target : string;
  timeout_total : Z
}.

(** The network: a request either yields the status of a response or
    raises (connection failure, timeout, malformed response); it may change
    the state of the world.  The requests issued are logged. *)
Record net (World : Type) : Type := Net {
  world : World;
  issued : list request
}.
Arguments Net {World} world issued.
Arguments world {World} n.
Arguments issued {World} n.

Definition io (World A : Type) : Type := net World -> result A * net World.

Global Instance io_ret {World} : MRet (io World) := fun A a st => (Ok a, st).

Global Instance io_bind {World} : MBind (io World) := fun A B k m st =>
  match m st with
  | (Ok a, st') => k a st'
  | (Raise e, st') => (Raise e, st')
  end.

(** [try: body  except: handler] with a bare [except]. *)
Definition try_except {World A} (body handler : io World A) : io World A :=
  fun st =>
    match body st with
    | (Ok a, st') => (Ok a, st')
    | (Raise _, st') => handler st'
    end.

Definition send {World} (transport : World -> request -> result Z * World)
    (req : request) : io World Z :=
  fun st =>
    let (r, w) := transport (world st) req in
    (r, Net w (issued st ++ [req])).

(** [check_url]: the first [try] either returns [True] from inside
    ([Some true]) or is left, normally or through its [except: pass]
    ([None]); the second [try] returns in every case. *)
Definition check_url {World} (transport : World -> request -> result Z * World)
    (url : string) : io World bool :=
  returned ←
    try_except
      (status ← send transport (Request HEAD url 8);
       if decide (status = 200) then mret (Some true) else mret None)
      (mret None);
  match returned with
  | Some b => mret b
  | None =>
      try_except
        (status ← send transport (Request GET url 10);
         mret (bool_decide (status = 200)))
        (mret false)
  end.

(** The outcome of one request, as the prober reads it: Live when a
    response with status 200 came back, Dead on any other status and on
    any exception. *)
Definition live (r : result Z) : bool :=
  match r with
  | Ok status => bool_decide (status = 200)
  | Raise _ => false
  end.

(** ** The distribution of the candidates over workers and batches *)

Definition WORKERS : nat := 4.
Definition BATCH_SIZE : nat := 2000.

(** [l[start::step]] for a step of at least one: the elements at the
    indices start, start + step, ...  [wait] counts the elements still to
    pass before the next one is taken. *)
Fixpoint stride {A : Type} (wait step : nat) (l : list A) : list A :=
  match l with
  | [] => []
  | x :: l' =>
      match wait with
      | O => x :: stride (step - 1) step l'
      | S w => stride w step l'
      end
  end.

(** [chunks = [urls[i::WORKERS] for i in range(WORKERS)]] in
    [find_first_live_url]. *)
Definition chunks (urls : list string) : list (list string) :=
  (fun i => stride i WORKERS urls) <$> seq 0 WORKERS.

(** The chunks that get a worker task: [for chunk in chunks if chunk]. *)
Definition task_chunks (urls : list string) : list (list string) :=
  filter (fun chunk => chunk <> []) (chunks urls).

(** [range(0, n, step)] for a positive step. *)
Definition range_step (n step : nat) : list nat :=
  (fun k => k * step)%nat <$> seq 0 ((n + step - 1) / step).

(** The batches of [worker_task]: [urls_chunk[i:i+size]] for [i] in
    [range(0, len(urls_chunk), size)]. *)
Definition batches_of (size : nat) (urls_chunk : list string) : list (list string) :=
  (fun i => take size (drop i urls_chunk)) <$> range_step (length urls_chunk) size.

Definition batches (urls_chunk : list string) : list (list string) :=
  batches_of BATCH_SIZE urls_chunk.

(** ** The conversation: [option_button_callback] and [handle_tag_input] *)

(** [str.strip()] and [str.split(sep)] for a one-character separator; the
    whitespace is that of ASCII text, as for the case functions above. *)
Fixpoint lstrip (s : string) : string :=
  match s with
  | EmptyString => ""
  | String c s' => if is_space c then lstrip s' else s
  end.

Fixpoint rstrip (s : string) : string :=
  match s with
  | EmptyString => ""
  | String c s' =>
      match rstrip s' with
      | EmptyString => if is_space c then "" else String c ""
      | r => String c r
      end
  end.

Definition strip (s : string) : string := rstrip (lstrip s).

Fixpoint split (sep : ascii) (s : string) : list string :=
  match s with
  | EmptyString => [""]
  | String c s' =>
      if decide (c = sep) then "" :: split sep s'
      else match split sep s' with
           | [] => [String c ""]
           | piece :: pieces => String c piece :: pieces
           end
  end.

(** [[v.strip() for v in text.split(',') if v.strip()]] (line 382). *)
Definition split_values (text : string) : list string :=
  (split "," text) ≫= (fun v => if decide (strip v = "") then [] else [strip v]).

(** [context.user_data]: each key is absent or holds a value of the one
    type the module stores under it.  ['current_index'] only ever holds 0
    or a successor. *)
Record user_data : Type := UserData {
  ud_busy : option bool;
  ud_template : option string;
  ud_banner_tag_template : option string;
  ud_tags : option (list string);
  ud_current_index : option nat;
  ud_values : option (gmap string (list string));
  ud_expecting_template : option bool
}.

(** [user_data.clear()]. *)
Definition cleared : user_data := UserData None None None None None None None.

Definition with_busy (v : bool) (ud : user_data) : user_data :=
  UserData (Some v) (ud_template ud) (ud_banner_tag_template ud) (ud_tags ud)
    (ud_current_index ud) (ud_values ud) (ud_expecting_template ud).
Definition with_template (v : string) (ud : user_data) : user_data :=
  UserData (ud_busy ud) (Some v) (ud_banner_tag_template ud) (ud_tags ud)
    (ud_current_index ud) (ud_values ud) (ud_expecting_template ud).
Definition with_banner_tag_template (v : string) (ud : user_data) : user_data :=
  UserData (ud_busy ud) (ud_template ud) (Some v) (ud_tags ud)
    (ud_current_index ud) (ud_values ud) (ud_expecting_template ud).
Definition with_tags (v : list string) (ud : user_data) : user_data :=
  UserData (ud_busy ud) (ud_template ud) (ud_banner_tag_template ud) (Some v)
    (ud_current_index ud) (ud_values ud) (ud_expecting_template ud).
Definition with_current_index (v : nat) (ud : user_data) : user_data :=
  UserData (ud_busy ud) (ud_template ud) (ud_banner_tag_template ud) (ud_tags ud)
    (Some v) (ud_values ud) (ud_expecting_template ud).
Definition with_values (v : gmap string (list string)) (ud : user_data) : user_data :=
  UserData (ud_busy ud) (ud_template ud) (ud_banner_tag_template ud) (ud_tags ud)
    (ud_current_index ud) (Some v) (ud_expecting_template ud).
Definition with_expecting_template (v : bool) (ud : user_data) : user_data :=
  UserData (ud_busy ud) (ud_template ud) (ud_banner_tag_template ud) (ud_tags ud)
    (ud_current_index ud) (ud_values ud) (Some v).

(** The messages of the two handlers, by kind; those of the custom-template
    branch and of the end of [handle_tag_input] are the [reply] above. *)
Inductive message : Type :=
  | TemplateUsed (template : string)  (* "Template Digunakan:\n{template}" *)
  | AskFirst (first : string)         (* "Masukan Huruf/Angka Untuk Kolom [first] ..." *)
  | BannerUsed (first : string)       (* "Template Banner Digunakan.\n... [first] ..." *)
  | AskCustomTemplate                 (* "Kirim Template Link Custom ..." *)
  | TemplateMissing                   (* "Template Link Tidak Ada. Kirim Ulang." *)
  | IndexTagError                     (* "Terjadi Error (index tag). ..." *)
  | NoValidValue                      (* "Tidak Terdeteksi Huruf/Angka Yang Valid. ..." *)
  | AskNext (nxt : string)            (* "Masukkan Huruf/Angka Untuk Kolom [nxt] ..." *)
  | Reply (r : reply).

(** The state a handler returns, or the exception that leaves it. *)
Inductive conversation : Type := ASKING_TAGS | END.

Inductive crash : Type :=
  | KeyError (key : string)
  | SubscriptError                    (* [IndexError] of [tags[...]] *)
  | CallFailed                        (* an awaited call raised *)
  | AttributeError.                   (* [update.message] is [None] *)

Inductive outcome : Type :=
  | Return (state : conversation)
  | Crash (e : crash).

(** [option_button_callback] (lines 300-341), for the pressed button's
    [query.data]; the previous [user_data] is cleared.  Sending a message is
    taken to succeed; the runs in which a call fails are in [Awaited]
    below. *)
Definition option_button_callback (opt : string) (previous : user_data)
  : list message * user_data * outcome :=
  let ud := with_busy false cleared in
  if decide (opt = "link_gacha") then
    let template := TEMPLATE_GACHA in
    let ud := with_template template ud in
    let tags := extract_tags template in
    let ud := with_tags tags ud in
    let ud := with_current_index 0 ud in
    let ud := with_values ∅ ud in
    match tags with
    | [] => ([TemplateUsed template], ud, Crash SubscriptError)
    | first :: _ =>
        ([TemplateUsed template; AskFirst first], ud, Return ASKING_TAGS)
    end
  else if decide (opt = "link_banner") then
    let ud := with_template "BANNER" ud in
    let ud := with_banner_tag_template TEMPLATE_BANNER_OVERVIEW ud in
    let ud := with_tags (extract_tags TEMPLATE_BANNER_OVERVIEW) ud in
    let ud := with_current_index 0 ud in
    let ud := with_values ∅ ud in
    match ud_tags ud with
    | None => ([], ud, Crash (KeyError "tags"))
    | Some [] => ([], ud, Crash SubscriptError)
    | Some (first :: _) => ([BannerUsed first], ud, Return ASKING_TAGS)
    end
  else
    let ud := with_expecting_template true ud in
    ([AskCustomTemplate], ud, Return ASKING_TAGS).

(** [handle_tag_input] (lines 343-455) for a message with the given text
    ([None] when it has none), with the search taken by its outcome. *)
Definition handle_tag_input (find_first_live_url : list string -> option string)
    (message_text : option string) (ud : user_data)
  : list message * user_data * outcome :=
  let text := strip (default "" message_text) in
  if decide (text = "") then ([TemplateMissing], ud, Return ASKING_TAGS)
  else if default false (ud_expecting_template ud) then
    match receive_custom_template text with
    | (r, None) => ([Reply r], ud, Return ASKING_TAGS)
    | (r, Some (template, tags)) =>
        let ud := with_expecting_template false ud in
        let ud := with_template template ud in
        let ud := with_tags tags ud in
        let ud := with_current_index 0 ud in
        let ud := with_values ∅ ud in
        ([Reply r], ud, Return ASKING_TAGS)
    end
  else
    let tags := default [] (ud_tags ud) in
    let idx := default 0%nat (ud_current_index ud) in
    if decide (length tags <= idx)%nat then ([IndexTagError], ud, Return END)
    else
      match tags !! idx with
      | None => ([], ud, Crash SubscriptError)
      | Some tag =>
          let vals := split_values text in
          if decide (vals = []) then ([NoValidValue], ud, Return ASKING_TAGS)
          else
            match ud_values ud with
            | None => ([], ud, Crash (KeyError "values"))
            | Some values =>
                let ud := with_values (<[tag := vals]> values) ud in
                if decide (idx + 1 < length tags)%nat then
                  let ud := with_current_index (idx + 1) ud in
                  match tags !! (idx + 1)%nat with
                  | None => ([], ud, Crash SubscriptError)
                  | Some nxt => ([AskNext nxt], ud, Return ASKING_TAGS)
                  end
                else
                  let template_marker := ud_template ud in
                  let tag_values := default ∅ (ud_values ud) in
                  (Reply <$> finish_tag_input find_first_live_url
                               template_marker tag_values,
                   ud, Return END)
            end
      end.

(** The text messages of one conversation: [handle_tag_input] handles them
    while the state is [ASKING_TAGS] (the [states] of [register_handlers]);
    an exception leaves the state as it is. *)
Fixpoint converse (find_first_live_url : list string -> option string)
    (texts : list (option string)) (ud : user_data)
  : list message * user_data * conversation :=
  match texts with
  | [] => ([], ud, ASKING_TAGS)
  | text :: rest =>
      let '(sent, ud', out) := handle_tag_input find_first_live_url text ud in
      match out with
      | Return END => (sent, ud', END)
      | Return ASKING_TAGS | Crash _ =>
          let '(sent', ud'', state) := converse find_first_live_url rest ud' in
          (sent ++ sent', ud'', state)
      end
  end.

(** What [handle_tag_input] relies on when it reads [user_data]: either a
    custom template is awaited, or the tags of the stored template are
    being collected, the current index is within them and every earlier
    tag has its values. *)
Definition collecting (ud : user_data) : Prop :=
  exists (tags : list string) (idx : nat) (values : gmap string (list string))
         (template : string),
    ud_tags ud = Some tags /\ ud_current_index ud = Some idx /\
    ud_values ud = Some values /\ ud_template ud = Some template /\
    (idx < length tags)%nat /\
    (forall j t, (j < idx)%nat -> tags !! j = Some t -> values_of values t <> []) /\
    ((template = "BANNER" /\ tags = extract_tags TEMPLATE_BANNER_OVERVIEW) \/
     (template <> "BANNER" /\ tags = extract_tags template)).

Definition consistent (ud : user_data) : Prop :=
  ud_expecting_template ud = Some true \/
  (default false (ud_expecting_template ud) = false /\ collecting ud).

(** The values stored once the given texts have answered the prompts for
    the given tags, in this order. *)
Definition collect_values (values : gmap string (list string))
    (tags : list string) (texts : list (option string))
  : gmap string (list string) :=
  foldl (fun m p => <[p.1 := split_values (strip (default "" p.2))]> m)
        values (zip tags texts).

(** ** The handlers when an awaited call fails

    The handlers have no [try] around their Telegram calls: when one
    raises (a network or API error), the exception leaves the handler and
    [user_data] stays as written so far.  [sent k] tells whether the
    [k]-th awaited call of a run returns; the awaited search is one of
    them, and when it returns it is taken by its outcome, as above.  The
    update given to [handle_tag_input] may also carry no [message] (an
    edited message passes the text filter too), and then
    [update.message.text] raises. *)
Module Awaited.

Definition option_button_callback (sent : nat -> bool) (opt : string)
    (previous : user_data) : list message * user_data * outcome :=
  if negb (sent 0%nat) then ([], previous, Crash CallFailed)
  else
    let ud := with_busy false cleared in
    if decide (opt = "link_gacha") then
      let template := TEMPLATE_GACHA in
      let ud := with_template template ud in
      if negb (sent 1%nat) then ([], ud, Crash CallFailed)
      else
        let tags := extract_tags template in
        let ud := with_tags tags ud in
        let ud := with_current_index 0 ud in
        let ud := with_values ∅ ud in
        match tags with
        | [] => ([TemplateUsed template], ud, Crash SubscriptError)
        | first :: _ =>
            if negb (sent 2%nat)
            then ([TemplateUsed template], ud, Crash CallFailed)
            else ([TemplateUsed template; AskFirst first], ud, Return ASKING_TAGS)
        end
    else if decide (opt = "link_banner") then
      let ud := with_template "BANNER" ud in
      let ud := with_banner_tag_template TEMPLATE_BANNER_OVERVIEW ud in
      let ud := with_tags (extract_tags TEMPLATE_BANNER_OVERVIEW) ud in
      let ud := with_current_index 0 ud in
      let ud := with_values ∅ ud in
      match ud_tags ud with
      | None => ([], ud, Crash (KeyError "tags"))
      | Some [] => ([], ud, Crash SubscriptError)
      | Some (first :: _) =>
          if negb (sent 1%nat) then ([], ud, Crash CallFailed)
          else ([BannerUsed first], ud, Return ASKING_TAGS)
      end
    else
      let ud := with_expecting_template true ud in
      if negb (sent 1%nat) then ([], ud, Crash CallFailed)
      else ([AskCustomTemplate], ud, Return ASKING_TAGS).

(** A handler's only reply on a path: [await update.message.reply_text(m)]
    followed by [return state]. *)
Definition reply_text (sent : nat -> bool) (m : message) (ud : user_data)
    (state : conversation) : list message * user_data * outcome :=
  if sent 0%nat then ([m], ud, Return state) else ([], ud, Crash CallFailed).

Definition handle_tag_input (find_first_live_url : list string -> option string)
    (sent : nat -> bool) (update_message : option (option string))
    (ud : user_data) : list message * user_data * outcome :=
  match update_message with
  | None => ([], ud, Crash AttributeError)
  | Some message_text =>
      let text := strip (default "" message_text) in
      if decide (text = "") then reply_text sent TemplateMissing ud ASKING_TAGS
      else if default false (ud_expecting_template ud) then
        match receive_custom_template text with
        | (r, None) => reply_text sent (Reply r) ud ASKING_TAGS
        | (r, Some (template, tags)) =>
            let ud := with_expecting_template false ud in
            let ud := with_template template ud in
            let ud := with_tags tags ud in
            let ud := with_current_index 0 ud in
            let ud := with_values ∅ ud in
            reply_text sent (Reply r) ud ASKING_TAGS
        end
      else
        let tags := default [] (ud_tags ud) in
        let idx := default 0%nat (ud_current_index ud) in
        if decide (length tags <= idx)%nat
        then reply_text sent IndexTagError ud END
        else
          match tags !! idx with
          | None => ([], ud, Crash SubscriptError)
          | Some tag =>
              let vals := split_values text in
              if decide (vals = [])
              then reply_text sent NoValidValue ud ASKING_TAGS
              else
                match ud_values ud with
                | None => ([], ud, Crash (KeyError "values"))
                | Some values =>
                    let ud := with_values (<[tag := vals]> values) ud in
                    if decide (idx + 1 < length tags)%nat then
                      let ud := with_current_index (idx + 1) ud in
                      match tags !! (idx + 1)%nat with
                      | None => ([], ud, Crash SubscriptError)
                      | Some nxt => reply_text sent (AskNext nxt) ud ASKING_TAGS
                      end
                    else
                      let template_marker := ud_template ud in
                      let tag_values := default ∅ (ud_values ud) in
                      match build_urls template_marker tag_values with
                      | Raise (ValueError text) =>
                          reply_text sent (Reply (ErrorText text)) ud END
                      | Raise _ => reply_text sent (Reply GenerationFailed) ud END
                      | Ok [] => reply_text sent (Reply NothingGenerated) ud END
                      | Ok urls =>
                          let total := length urls in
                          if negb (sent 0%nat) then ([], ud, Crash CallFailed)
                          else if negb (sent 1%nat)
                          then ([Reply (TotalGenerated total)], ud, Crash CallFailed)
                          else if negb (sent 2%nat)
                          then ([Reply (TotalGenerated total);
                                 Reply (ProgressStarted total)],
                                ud, Crash CallFailed)
                          else
                            match find_first_live_url urls with
                            | Some _ =>
                                ([Reply (TotalGenerated total);
                                  Reply (ProgressStarted total)], ud, Return END)
                            | None =>
                                if negb (sent 3%nat)
                                then ([Reply (TotalGenerated total);
                                       Reply (ProgressStarted total)],
                                      ud, Crash CallFailed)
                                else ([Reply (TotalGenerated total);
                                       Reply (ProgressStarted total);
                                       Reply NotFound], ud, Return END)
                            end
                      end
                end
          end
  end.

(** The [user_data] of a user: empty at first, then whatever runs of the two
    handlers leave behind, in any order and with any of their calls
    failing. *)
Inductive reachable (find_first_live_url : list string -> option string)
  : user_data -> Prop :=
  | reachable_start : reachable find_first_live_url cleared
  | reachable_press (sent : nat -> bool) (opt : string) (ud : user_data) :
      reachable find_first_live_url ud ->
      reachable find_first_live_url (option_button_callback sent opt ud).1.2
  | reachable_text (sent : nat -> bool) (update_message : option (option string))
      (ud : user_data) :
      reachable find_first_live_url ud ->
      reachable find_first_live_url
        (handle_tag_input find_first_live_url sent update_message ud).1.2.

End Awaited.

(** The [user_data] in which the gacha button leaves a user when its first
    edit fails: the template is stored, the tags are not. *)
Definition interrupted : user_data := with_template TEMPLATE_GACHA (with_busy false cleared).

Definition settled (ud : user_data) : Prop :=
  ud = cleared \/ ud = interrupted \/ consistent ud.

(** ** Text that can be encoded

    A string stands for a Python [str] through its UTF-8 encoding, so the
    strings that stand for one are the well-formed UTF-8 sequences.  A
    [str] with a lone surrogate has no encoding: on such a value
    [quote(value, safe='')] raises [UnicodeEncodeError] (a [ValueError]),
    and no string of the model stands for it. *)
Definition byte_in (lo hi : N) (c : ascii) : bool :=
  ((lo <=? code c) && (code c <=? hi))%N.

Fixpoint utf8_text (s : string) : bool :=
  match s with
  | EmptyString => true
  | String a s1 =>
      if byte_in 0 127 a then utf8_text s1
      else
        match s1 with
        | EmptyString => false
        | String b s2 =>
            if byte_in 194 223 a then byte_in 128 191 b && utf8_text s2
            else
              match s2 with
              | EmptyString => false
              | String c s3 =>
                  if byte_in 224 239 a
                  then
                    byte_in (if (code a =? 224)%N then 160 else 128)
                            (if (code a =? 237)%N then 159 else 191) b
                    && byte_in 128 191 c && utf8_text s3
                  else
                    match s3 with
                    | EmptyString => false
                    | String d s4 =>
                        byte_in 240 244 a
                        && byte_in (if (code a =? 240)%N then 144 else 128)
                                   (if (code a =? 244)%N then 143 else 191) b
                        && byte_in 128 191 c && byte_in 128 191 d
                        && utf8_text s4
                    end
              end
        end
  end.

(** * Properties *)

(** ** The embedding on concrete inputs *)

Example extract_tags_gacha : extract_tags TEMPLATE_GACHA = ["V"; "G"; "E"; "T"].
Proof. reflexivity. Qed.

Example extract_tags_brackets :
  extract_tags "a[[A]]b[x-y][]][9z]" = ["A"; "9z"].
Proof. reflexivity. Qed.

Example title_words : title "hello wORLD-2x foo_bar" = "Hello World-2X Foo_Bar".
Proof. reflexivity. Qed.

Example re_split_seps_ends : re_split_seps "-a__ b-" = [""; "a"; "b"; ""].
Proof. reflexivity. Qed.

Example quote_reserved : quote "a/b c~[x]" "" = "a%2Fb%20c~%5Bx%5D".
Proof. reflexivity. Qed.

Example replace_leftmost : Str.replace "aaa" "aa" "b" = "ba".
Proof. reflexivity. Qed.

Example product_order :
  product [["1"; "2"]; ["a"]; ["x"; "y"]] =
  [["1"; "a"; "x"]; ["1"; "a"; "y"]; ["2"; "a"; "x"]; ["2"; "a"; "y"]].
Proof. reflexivity. Qed.

Example expand_gacha_name_base_separators :
  expand_gacha_name_base "-Token__wheel " =
  ["-Token__wheel "; "-Token__Wheel "; "-token__wheel "; "TokenWheel"].
Proof. by vm_compute. Qed.

Example generate_gacha :
  generate_urls_from_template TEMPLATE_GACHA
    (<["V" := ["50"]]> (<["G" := ["Skull"]]> (<["E" := ["a b"]]> (<["T" := ["0101"]]> ∅))))
  = Ok ["https://dl.dir.freefiremobile.com/common/OB50/CSH/gacha/Skull_a%20bxxx_0101_TabID_ind.jpg";
        "https://dl.dir.freefiremobile.com/common/OB50/CSH/gacha/Skull-2_a%20bxxx_0101_TabID_ind.jpg";
        "https://dl.dir.freefiremobile.com/common/OB50/CSH/gacha/Skull-3_a%20bxxx_0101_TabID_ind.jpg";
        "https://dl.dir.freefiremobile.com/common/OB50/CSH/gacha/Skull-4_a%20bxxx_0101_TabID_ind.jpg";
        "https://dl.dir.freefiremobile.com/common/OB50/CSH/gacha/Skull-5_a%20bxxx_0101_TabID_ind.jpg";
        "https://dl.dir.freefiremobile.com/common/OB50/CSH/gacha/Skull-6_a%20bxxx_0101_TabID_ind.jpg";
        "https://dl.dir.freefiremobile.com/common/OB50/CSH/gacha/skull_a%20bxxx_0101_TabID_ind.jpg";
        "https://dl.dir.freefiremobile.com/common/OB50/CSH/gacha/skull-2_a%20bxxx_0101_TabID_ind.jpg";
        "https://dl.dir.freefiremobile.com/common/OB50/CSH/gacha/skull-3_a%20bxxx_0101_TabID_ind.jpg";
        "https://dl.dir.freefiremobile.com/common/OB50/CSH/gacha/skull-4_a%20bxxx_0101_TabID_ind.jpg";
        "https://dl.dir.freefiremobile.com/common/OB50/CSH/gacha/skull-5_a%20bxxx_0101_TabID_ind.jpg";
        "https://dl.dir.freefiremobile.com/common/OB50/CSH/gacha/skull-6_a%20bxxx_0101_TabID_ind.jpg"].
Proof. by vm_compute. Qed.

(** A HEAD request that fails and a GET request that answers 200. *)
Example check_url_fallback :
  check_url (fun (w : unit) req =>
               match method req with
               | HEAD => (Raise TransportError, w)
               | GET => (Ok 200, w)
               end) "u" (Net tt [])
  = (Ok true, Net tt [Request HEAD "u" 8; Request GET "u" 10]).
Proof. reflexivity. Qed.

(** ** Strings *)

Lemma str_app_nil_l (s : string) : "" +:+ s = s.
Proof. reflexivity. Qed.

Lemma str_app_cons (c : ascii) (s t : string) :
  String c s +:+ t = String c (s +:+ t).
Proof. reflexivity. Qed.

Lemma str_app_nil_r (s : string) : s +:+ "" = s.
Proof. induction s as [|c s IH]; [done|]. by rewrite str_app_cons, IH. Qed.

Lemma str_app_assoc (s t u : string) : (s +:+ t) +:+ u = s +:+ (t +:+ u).
Proof. induction s as [|c s IH]; [done|]. by rewrite !str_app_cons, IH. Qed.

Lemma str_length_app (s t : string) :
  String.length (s +:+ t) = (String.length s + String.length t)%nat.
Proof.
  induction s as [|c s IH]; [done|]. rewrite str_app_cons. simpl. by rewrite IH.
Qed.

Lemma startswith_app (p s : string) : Str.startswith p (p +:+ s) = true.
Proof.
  induction p as [|c p IH]; [done|].
  rewrite str_app_cons. simpl. by rewrite decide_True.
Qed.

Lemma startswith_inv (p s : string) :
  Str.startswith p s = true -> exists rest, s = p +:+ rest.
Proof.
  revert s. induction p as [|c p IH]; intros s H.
  - by exists s.
  - destruct s as [|d s]; [done|]. simpl in H.
    destruct (decide (c = d)) as [->|]; [|done].
    destruct (IH _ H) as [rest ->]. by exists rest.
Qed.

Lemma contains_startswith (p s : string) :
  Str.startswith p s = true -> Str.contains p s = true.
Proof. intros H. destruct s; simpl in *; by rewrite H. Qed.

Lemma contains_cons (p : string) (c : ascii) (s : string) :
  Str.contains p s = true -> Str.contains p (String c s) = true.
Proof. intros H. simpl. rewrite H. by rewrite orb_true_r. Qed.

(** ** Tag extraction *)

Lemma span_alnum_spec (s run rest : string) :
  span_alnum s = (run, rest) ->
  Str.all is_alnum run = true /\ s = run +:+ rest.
Proof.
  revert run rest. induction s as [|c s IH]; intros run rest H; simpl in H.
  - by inversion H.
  - destruct (is_alnum c) eqn:Hc.
    + destruct (span_alnum s) as [run' rest'] eqn:Hs. inversion H; subst.
      destruct (IH _ _ eq_refl) as [Hall ->]. simpl. by rewrite Hc, Hall.
    + by inversion H.
Qed.

Lemma span_alnum_all (run : string) :
  Str.all is_alnum run = true -> span_alnum run = (run, "").
Proof.
  induction run as [|c run IH]; [done|]. simpl.
  intros [Hc Hall]%andb_true_iff. by rewrite Hc, (IH Hall).
Qed.

Lemma match_tag_spec (s tag rest : string) :
  match_tag s = Some (tag, rest) ->
  tag <> "" /\ Str.all is_alnum tag = true /\ s = marker tag +:+ rest.
Proof.
  unfold match_tag. intros H.
  destruct s as [|c s]; [done|].
  destruct (decide (c = "["%char)) as [->|Hc].
  - destruct (span_alnum s) as [run after] eqn:Hs.
    destruct run as [|r run]; [done|].
    destruct after as [|a after]; [done|].
    destruct (decide (a = "]"%char)) as [->|Ha].
    + inversion H; subst.
      destruct (span_alnum_spec _ _ _ Hs) as [Hall ->].
      split; [done|]. split; [done|].
      unfold marker. by rewrite !str_app_assoc.
    + exfalso. revert H.
      destruct a as [[] [] [] [] [] [] [] []]; try done.
  - exfalso. revert H.
    destruct c as [[] [] [] [] [] [] [] []]; try done.
Qed.

Lemma fullmatch_alnum_iff (t : string) :
  fullmatch_alnum t = true <-> t <> "" /\ Str.all is_alnum t = true.
Proof.
  unfold fullmatch_alnum. split.
  - destruct (span_alnum t) as [run rest] eqn:Hs.
    destruct run as [|c run]; [done|]. destruct rest; [|done]. intros _.
    destruct (span_alnum_spec _ _ _ Hs) as [Hall ->].
    rewrite str_app_nil_r. by split.
  - intros [Hne Hall]. rewrite (span_alnum_all _ Hall). by destruct t.
Qed.

Lemma findall_from_spec (s : string) (skip : nat) (t : string) :
  t ∈ findall_from skip s ->
  fullmatch_alnum t = true /\ Str.contains (marker t) s = true.
Proof.
  revert skip. induction s as [|c s IH]; intros skip H; cbn [findall_from] in H.
  - by apply elem_of_nil in H.
  - destruct skip as [|k].
    + destruct (match_tag (String c s)) as [[tag rest]|] eqn:Hm.
      * apply elem_of_cons in H as [->|H].
        -- destruct (match_tag_spec _ _ _ Hm) as (Hne & Hall & Heq).
           split; [by apply fullmatch_alnum_iff|].
           apply contains_startswith. rewrite Heq. apply startswith_app.
        -- destruct (IH _ H) as [? ?]. split; [done|]. by apply contains_cons.
      * destruct (IH _ H) as [? ?]. split; [done|]. by apply contains_cons.
    + destruct (IH _ H) as [? ?]. split; [done|]. by apply contains_cons.
Qed.

Lemma valid_tags_extract_tags (template : string) :
  valid_tags (extract_tags template) = true.
Proof.
  unfold valid_tags. apply forallb_forall. intros t Ht.
  apply list_elem_of_In in Ht. by apply findall_from_spec in Ht as [? _].
Qed.

(** C10. Every tag that [extract_tags] returns is a non-empty run of
    [[A-Za-z0-9]] whose bracketed marker occurs in the template, so
    [valid_tags (extract_tags template)] holds for every template, and the
    branch of [handle_tag_input] that rejects a custom template for its tag
    characters is never taken: brackets around anything else are not a
    marker. *)
Theorem extract_tags_always_valid (template : string) :
  (forall t, t ∈ extract_tags template ->
     t <> "" /\ Str.all is_alnum t = true /\
     Str.contains (marker t) template = true) /\
  valid_tags (extract_tags template) = true /\
  (receive_custom_template template).1 <> TagsMustBeAlphanumeric.
Proof.
  split; [|split].
  - intros t Ht. apply findall_from_spec in Ht as [Hf Hc].
    apply fullmatch_alnum_iff in Hf as [? ?]. done.
  - apply valid_tags_extract_tags.
  - unfold receive_custom_template.
    pose proof (valid_tags_extract_tags template) as Hv.
    destruct (extract_tags template); [done|]. by rewrite Hv.
Qed.

(** [extract_tags_always_valid] at the gacha template. *)
Lemma extract_tags_always_valid_witness :
  "G" ∈ extract_tags TEMPLATE_GACHA /\
  Str.all is_alnum "G" = true /\
  Str.contains (marker "G") TEMPLATE_GACHA = true.
Proof.
  assert (H : "G" ∈ extract_tags TEMPLATE_GACHA).
  { apply (bool_decide_unpack _). by vm_compute. }
  split; [exact H|].
  apply (proj1 (extract_tags_always_valid TEMPLATE_GACHA) "G" H).
Defined.

(** ** The prober *)

Section Prober.

Context {World : Type}.
Variable transport : World -> request -> result Z * World.

(** C5. For every behaviour of the network and every URL, [check_url]
    returns a Boolean and never raises.  It first issues a HEAD request
    with an 8-unit total timeout; if that yields status 200 the answer is
    [true] and nothing else is issued.  On any other status and on any
    exception it issues a GET request with a 10-unit total timeout, and the
    answer is [true] exactly when that request yields status 200; an
    exception there gives [false]. *)
Theorem check_url_never_raises (url : string) (st : net World) :
  check_url transport url st =
    let head := Request HEAD url 8 in
    let get := Request GET url 10 in
    let (r1, w1) := transport (world st) head in
    if live r1
    then (Ok true, Net w1 (issued st ++ [head]))
    else
      let (r2, w2) := transport w1 get in
      (Ok (live r2), Net w2 (issued st ++ [head; get])).
Proof.
  cbv zeta. unfold check_url, try_except, mbind, io_bind, mret, io_ret, send.
  destruct (transport (world st) (Request HEAD url 8)) as [[status1|e1] w1];
    cbn [live].
  - destruct (decide (status1 = 200)) as [->|Hne].
    + by rewrite bool_decide_eq_true_2.
    + rewrite bool_decide_eq_false_2 by done. cbn [world issued].
      destruct (transport w1 (Request GET url 10)) as [[status2|e2] w2];
        by rewrite <- app_assoc.
  - cbn [world issued].
    destruct (transport w1 (Request GET url 10)) as [[status2|e2] w2];
      by rewrite <- app_assoc.
Qed.

End Prober.

(** ** Gacha-name expansion *)

Lemma append_if_absent_elem (l : list string) (x y : string) :
  y ∈ append_if_absent l x <-> y ∈ l \/ y = x.
Proof.
  unfold append_if_absent. destruct (decide (x ∈ l)) as [Hin|Hin].
  - split; [by left|]. intros [?| ->]; done.
  - rewrite elem_of_app, list_elem_of_singleton. done.
Qed.

Lemma append_if_absent_NoDup (l : list string) (x : string) :
  NoDup l -> NoDup (append_if_absent l x).
Proof.
  intros Hl. unfold append_if_absent. destruct (decide (x ∈ l)) as [Hin|Hin]; [done|].
  apply NoDup_app. split; [done|]. split; [|apply NoDup_singleton].
  intros y Hy ->%list_elem_of_singleton. done.
Qed.

Lemma foldl_append_if_absent_NoDup (xs uniq : list string) :
  NoDup uniq -> NoDup (foldl append_if_absent uniq xs).
Proof.
  revert uniq. induction xs as [|x xs IH]; intros uniq Hu; [done|].
  simpl. apply IH. by apply append_if_absent_NoDup.
Qed.

Lemma first_seen_NoDup (xs : list string) : NoDup (first_seen xs).
Proof. apply foldl_append_if_absent_NoDup. constructor. Qed.

Lemma foldl_append_if_absent_fresh (xs uniq : list string) :
  NoDup xs -> (forall x, x ∈ xs -> x ∉ uniq) ->
  foldl append_if_absent uniq xs = uniq ++ xs.
Proof.
  revert uniq. induction xs as [|x xs IH]; intros uniq Hnd Hfresh.
  - by rewrite app_nil_r.
  - apply NoDup_cons in Hnd as [Hx Hnd]. simpl.
    unfold append_if_absent at 2.
    rewrite decide_False by (apply Hfresh; left).
    rewrite IH; [by rewrite <- app_assoc|done|].
    intros y Hy [Hin| ->%list_elem_of_singleton]%elem_of_app; [|done].
    by apply (Hfresh y); [right|].
Qed.

Lemma first_seen_id (xs : list string) : NoDup xs -> first_seen xs = xs.
Proof.
  intros H. unfold first_seen. rewrite foldl_append_if_absent_fresh; [done..|].
  intros x _. apply not_elem_of_nil.
Qed.

(** The loop with the set of seen values computes [first_seen]. *)
Lemma dedupe_loop_spec (xs uniq : list string) :
  dedupe_loop xs (list_to_set uniq) uniq = foldl append_if_absent uniq xs.
Proof.
  revert uniq. induction xs as [|x xs IH]; intros uniq; [done|].
  simpl. unfold append_if_absent at 2.
  destruct (decide (x ∈ uniq)) as [Hin|Hin].
  - rewrite decide_True by (by apply elem_of_list_to_set). apply IH.
  - rewrite decide_False by (by rewrite elem_of_list_to_set).
    rewrite <- IH. f_equal.
    by rewrite list_to_set_app_L, list_to_set_singleton_L.
Qed.

Lemma dedupe_first_seen (xs : list string) : dedupe xs = first_seen xs.
Proof. apply (dedupe_loop_spec xs []). Qed.

Lemma length_lower (s : string) : String.length (lower s) = String.length s.
Proof. induction s as [|c s IH]; [done|]. simpl. by rewrite IH. Qed.

Lemma length_title_from (b : bool) (s : string) :
  String.length (title_from b s) = String.length s.
Proof. revert b. induction s as [|c s IH]; intros b; [done|]. simpl. by rewrite IH. Qed.

Lemma with_suffixes_unfold (b : string) :
  with_suffixes b =
  [b; b +:+ "-2"; b +:+ "-3"; b +:+ "-4"; b +:+ "-5"; b +:+ "-6"].
Proof. reflexivity. Qed.

Lemma str_app_inj_l (b1 b2 x y : string) :
  String.length b1 = String.length b2 -> b1 +:+ x = b2 +:+ y -> b1 = b2 /\ x = y.
Proof.
  revert b2. induction b1 as [|c b1 IH]; intros [|d b2] Hlen Heq; try done.
  rewrite !str_app_cons in Heq. inversion Heq; subst.
  destruct (IH b2) as [-> ->]; [by inversion Hlen|done|done].
Qed.

Lemma str_app_neq_self (b1 b2 x : string) :
  String.length b1 = String.length b2 -> x <> "" -> b1 <> b2 +:+ x.
Proof.
  intros Hlen Hx Heq. apply (f_equal String.length) in Heq.
  rewrite str_length_app in Heq. destruct x; [done|]. simpl in Heq. lia.
Qed.

(** The suffixed forms of values of one length never collide. *)
Lemma with_suffixes_NoDup (bases : list string) (n : nat) :
  NoDup bases -> (forall b, b ∈ bases -> String.length b = n) ->
  NoDup (bases ≫= with_suffixes).
Proof.
  intros Hnd Hlen. apply NoDup_bind; [|intros b _|done].
  - intros b1 b2 y H1 H2. rewrite !with_suffixes_unfold.
    assert (Hl : String.length b1 = String.length b2)
      by (by rewrite (Hlen _ H1), (Hlen _ H2)).
    assert (Hl' : String.length b2 = String.length b1) by done.
    rewrite !elem_of_cons, !elem_of_nil. intros Hy1 Hy2.
    destruct Hy1 as [->|[->|[->|[->|[->|[->|[]]]]]]];
    destruct Hy2 as [Hy|[Hy|[Hy|[Hy|[Hy|[Hy|[]]]]]]];
    try done;
    try (by apply (str_app_neq_self _ _ _ Hl) in Hy);
    try (by symmetry in Hy; apply (str_app_neq_self _ _ _ Hl') in Hy);
    by apply (str_app_inj_l _ _ _ _ Hl) in Hy as [? ?].
  - rewrite with_suffixes_unfold.
    assert (Hs : forall x y, x <> y -> b +:+ x <> b +:+ y).
    { intros x y Hxy Heq. by apply str_app_inj_l in Heq as [_ ?]. }
    assert (Hb : forall x, x <> "" -> b <> b +:+ x).
    { intros x Hx. by apply str_app_neq_self. }
    repeat (apply NoDup_cons; split;
            [rewrite !elem_of_cons, elem_of_nil;
             intros H; repeat (destruct H as [H|H]); try done;
             first [ by apply Hb in H | by apply Hs in H ]|]).
    apply NoDup_singleton.
Qed.

Lemma length_with_suffixes_bind (bases : list string) :
  length (bases ≫= with_suffixes) = (6 * length bases)%nat.
Proof.
  induction bases as [|b bases IH]; [done|].
  rewrite bind_cons, length_app, IH, with_suffixes_unfold. simpl. lia.
Qed.

Lemma expand_gacha_name_base_plain (v : string) :
  Str.contains "token" (lower v) && Str.contains "wheel" (lower v) = false ->
  expand_gacha_name_base v = first_seen [v; title v; lower v].
Proof.
  intros H. unfold expand_gacha_name_base. rewrite H.
  rewrite dedupe_first_seen. apply first_seen_id.
  do 3 apply append_if_absent_NoDup. constructor.
Qed.

Lemma first_seen_three (a b c : string) :
  (1 <= length (first_seen [a; b; c]) <= 3)%nat /\
  (length (first_seen [a; b; c]) = 3%nat <-> a <> b /\ a <> c /\ b <> c).
Proof.
  unfold first_seen. cbn [foldl]. unfold append_if_absent.
  destruct (decide (a ∈ [])) as [Ha|_]; [by apply elem_of_nil in Ha|]. cbn [app].
  destruct (decide (b ∈ [a])) as [Hb|Hb].
  - apply list_elem_of_singleton in Hb as ->.
    destruct (decide (c ∈ [a])) as [Hc|Hc]; simpl; (split; [lia|]);
      split; try lia; intros (? & ? & ?); done.
  - rewrite list_elem_of_singleton in Hb. cbn [app].
    destruct (decide (c ∈ [a; b])) as [Hc|Hc]; simpl; (split; [lia|]).
    + split; [lia|]. intros (? & ? & ?).
      apply elem_of_cons in Hc as [->|Hc]; [done|].
      by apply list_elem_of_singleton in Hc as ->.
    + split; [|done]. intros _. split; [done|].
      split; intros ->; apply Hc; [left|right; left].
Qed.

(** C2, as the code has it.  For a single ASCII value whose lower-cased
    text does not contain both "token" and "wheel", [expand_gacha_values]
    returns the distinct casing variants among the original, the title-case
    and the lower-case form, in this order, each followed by its five forms
    "-2" to "-6", without repetition: six candidates per distinct casing
    variant, so 6, 12 or 18, and 18 exactly when the three casings differ
    pairwise.  For "Skull" the title-case form is the value itself and the
    result is the twelve candidates listed. *)
Theorem expand_gacha_values_single (v : string) :
  ascii_text v ->
  Str.contains "token" (lower v) && Str.contains "wheel" (lower v) = false ->
  let bases := first_seen [v; title v; lower v] in
  (expand_gacha_values [v] = bases ≫= with_suffixes /\
   NoDup (expand_gacha_values [v]) /\
   length (expand_gacha_values [v]) = (6 * length bases)%nat /\
   (1 <= length bases <= 3)%nat /\
   (length (expand_gacha_values [v]) = 18%nat <->
      v <> title v /\ v <> lower v /\ title v <> lower v)) /\
  expand_gacha_values ["Skull"] =
    ["Skull"; "Skull-2"; "Skull-3"; "Skull-4"; "Skull-5"; "Skull-6";
     "skull"; "skull-2"; "skull-3"; "skull-4"; "skull-5"; "skull-6"].
Proof.
  intros _ Hplain bases. split; [|by vm_compute].
  assert (Hnd : NoDup (bases ≫= with_suffixes)).
  { apply (with_suffixes_NoDup _ (String.length v)); [apply first_seen_NoDup|].
    intros b Hb. unfold bases, first_seen in Hb. cbn [foldl] in Hb.
    rewrite !append_if_absent_elem in Hb.
    destruct Hb as [[[Hb| ->]| ->]| ->].
    - by apply elem_of_nil in Hb.
    - done.
    - apply length_title_from.
    - apply length_lower. }
  assert (Heq : expand_gacha_values [v] = bases ≫= with_suffixes).
  { unfold expand_gacha_values. rewrite bind_singleton.
    rewrite (expand_gacha_name_base_plain v Hplain).
    rewrite dedupe_first_seen. by apply first_seen_id. }
  destruct (first_seen_three v (title v) (lower v)) as [Hrange H3].
  rewrite Heq, length_with_suffixes_bind.
  split; [done|]. split; [done|]. split; [done|]. split; [done|].
  rewrite <- H3. fold bases. lia.
Qed.

(** The 18-candidate case of [expand_gacha_values_single], at a value whose
    three casings differ. *)
Lemma expand_gacha_values_single_witness :
  ascii_text "dRAGON" /\
  Str.contains "token" (lower "dRAGON") && Str.contains "wheel" (lower "dRAGON") = false /\
  length (expand_gacha_values ["dRAGON"]) = 18%nat.
Proof.
  split; [reflexivity|]. split; [reflexivity|].
  apply (expand_gacha_values_single "dRAGON"); [reflexivity|reflexivity|].
  vm_compute. repeat split; discriminate.
Defined.

(** C2 as stated fails: "Skull" lacks both substrings and expands to 12
    candidates, not 18. *)
Lemma expand_gacha_values_skull_not_18 :
  ascii_text "Skull" /\
  Str.contains "token" (lower "Skull") && Str.contains "wheel" (lower "Skull") = false /\
  length (expand_gacha_values ["Skull"]) = 12%nat /\
  ~ (forall v : string,
       Str.contains "token" (lower v) && Str.contains "wheel" (lower v) = false ->
       length (expand_gacha_values [v]) = 18%nat).
Proof.
  split; [reflexivity|]. split; [reflexivity|]. split; [reflexivity|].
  intros H. specialize (H "Skull" eq_refl). vm_compute in H. discriminate.
Qed.

(** C3, evaluated.  For "tokenwheel" the separator pattern finds nothing to
    split at, so the camel-case form is "Tokenwheel", the title-case
    variant again: the result is the twelve candidates below and holds
    neither "TokenWheel" nor any of "TokenWheel-2" to "TokenWheel-6".  The
    form "TokenWheel" is produced when the value has a separator, as in
    "token wheel". *)
Theorem expand_gacha_values_tokenwheel :
  re_split_seps "tokenwheel" = ["tokenwheel"] /\
  expand_gacha_name_base "tokenwheel" = ["tokenwheel"; "Tokenwheel"] /\
  expand_gacha_values ["tokenwheel"] =
    ["tokenwheel"; "tokenwheel-2"; "tokenwheel-3"; "tokenwheel-4";
     "tokenwheel-5"; "tokenwheel-6";
     "Tokenwheel"; "Tokenwheel-2"; "Tokenwheel-3"; "Tokenwheel-4";
     "Tokenwheel-5"; "Tokenwheel-6"] /\
  forallb (fun x => negb (bool_decide (x ∈ expand_gacha_values ["tokenwheel"])))
    ["TokenWheel"; "TokenWheel-2"; "TokenWheel-3"; "TokenWheel-4";
     "TokenWheel-5"; "TokenWheel-6"] = true /\
  expand_gacha_name_base "token wheel" = ["token wheel"; "Token Wheel"; "TokenWheel"].
Proof. repeat split; by vm_compute. Qed.

(** ** URL generation *)

Lemma collect_lists_spec (tag_values : gmap string (list string))
    (tags : list string) (lists : list (list string)) :
  collect_lists tag_values tags lists =
    if decide (Forall (fun t => values_of tag_values t <> []) tags)
    then Some (lists ++ (working_list tag_values <$> tags))
    else None.
Proof.
  revert lists. induction tags as [|t ts IH]; intros lists.
  - cbn [collect_lists]. rewrite decide_True by constructor.
    by rewrite fmap_nil, app_nil_r.
  - cbn [collect_lists]. fold (values_of tag_values t).
    destruct (values_of tag_values t) as [|v vs] eqn:Hv.
    + rewrite decide_False; [done|]. intros H. by inversion H.
    + assert (Hw : forall P : Prop, Forall (fun t => values_of tag_values t <> []) ts <->
                Forall (fun t => values_of tag_values t <> []) (t :: ts)).
      { intros _. rewrite Forall_cons, Hv. split; [by split|by intros [_ ?]]. }
      assert (Hwl : working_list tag_values t =
                    if decide (upper t = "G") then expand_gacha_values (v :: vs)
                    else v :: vs).
      { unfold working_list. by rewrite Hv. }
      destruct (decide (upper t = "G")) as [HG|HG]; rewrite IH;
        (destruct (decide (Forall _ ts)) as [Hts|Hts];
         [rewrite decide_True by (by apply (Hw True));
          by rewrite fmap_cons, Hwl, <- app_assoc
         |rewrite decide_False by (by rewrite <- (Hw True)); done]).
Qed.

Lemma collect_lists_shadowed_eq (tag_values : gmap string (list string))
    (tags : list string) (lists : list (list string)) :
  collect_lists_shadowed tag_values tags lists = collect_lists tag_values tags lists.
Proof.
  revert lists. induction tags as [|t ts IH]; intros lists; [done|].
  cbn [collect_lists collect_lists_shadowed].
  destruct (default [] (tag_values !! t)); [done|].
  destruct (decide (upper t = "G")); [apply IH|].
  destruct (bool_decide (upper t = "T") && forallb isdigit _); apply IH.
Qed.

Lemma check_total_spec (message : Z -> string) (lists : list (list string)) (total : Z) :
  match check_total message total lists with
  | Ok r =>
      r = total * Zprod (lengths lists) /\
      forall i, (1 <= i <= length lists)%nat ->
                total * Zprod (take i (lengths lists)) <= MAX_COMBINATIONS
  | Raise e =>
      exists j, (1 <= j <= length lists)%nat /\
        e = ValueError (message (total * Zprod (take j (lengths lists)))) /\
        total * Zprod (take j (lengths lists)) > MAX_COMBINATIONS /\
        forall i, (1 <= i < j)%nat ->
                  total * Zprod (take i (lengths lists)) <= MAX_COMBINATIONS
  end.
Proof.
  revert total. induction lists as [|l ls IH]; intros total.
  - simpl. split; [unfold Zprod; simpl; lia|]. intros i Hi. simpl in Hi. lia.
  - cbn [check_total].
    destruct (decide (total * Z.of_nat (length l) > MAX_COMBINATIONS)) as [Hgt|Hle].
    + exists 1%nat. unfold lengths, Zprod. rewrite fmap_cons.
      cbn [take firstn foldr length]. rewrite Z.mul_1_r.
      split; [lia|]. split; [done|]. split; [done|]. lia.
    + specialize (IH (total * Z.of_nat (length l))).
      assert (Hstep : forall i, total * Zprod (take (S i) (lengths (l :: ls))) =
                total * Z.of_nat (length l) * Zprod (take i (lengths ls))).
      { intros i. unfold lengths, Zprod. rewrite fmap_cons. cbn [take firstn foldr]. lia. }
      destruct (check_total message (total * Z.of_nat (length l)) ls) as [r|e].
      * destruct IH as [-> Hall]. split.
        -- unfold lengths, Zprod. rewrite fmap_cons. cbn [foldr]. lia.
        -- intros [|i] Hi; [lia|]. rewrite Hstep.
           destruct i as [|i].
           ++ unfold Zprod. rewrite take_0. cbn [foldr]. lia.
           ++ apply Hall. cbn [length] in Hi. lia.
      * destruct IH as (j & Hj & -> & Hgt & Hbelow). exists (S j).
        rewrite Hstep. split; [cbn [length]; lia|]. split; [done|]. split; [done|].
        intros [|i] Hi; [lia|]. rewrite Hstep.
        destruct i as [|i].
        -- unfold Zprod. rewrite take_0. cbn [foldr]. lia.
        -- apply Hbelow. lia.
Qed.

Lemma substitute_materialize (tags combo : list string) (u : string) (i : nat) :
  (i + length tags <= length combo)%nat ->
  substitute u i tags combo = Ok (materialize u tags (drop i combo)).
Proof.
  revert u i. induction tags as [|t ts IH]; intros u i Hlen; [done|].
  cbn [length] in Hlen. cbn [substitute].
  destruct (combo !! i) as [value|] eqn:Hi.
  - rewrite IH by lia. rewrite (drop_S _ _ _ Hi). done.
  - apply lookup_ge_None in Hi. lia.
Qed.

Lemma mapM_Ok {A B : Type} (f : A -> result B) (g : A -> B) (l : list A) :
  (forall x, x ∈ l -> f x = Ok (g x)) -> mapM f l = Ok (g <$> l).
Proof.
  induction l as [|x l IH]; intros H; [done|].
  cbn [mapM]. rewrite (H x) by left.
  rewrite IH by (intros y Hy; apply H; by right). done.
Qed.

Lemma product_length (lists : list (list string)) (combo : list string) :
  combo ∈ product lists -> length combo = length lists.
Proof.
  revert combo. induction lists as [|l ls IH]; intros combo H; cbn [product] in H.
  - by apply list_elem_of_singleton in H as ->.
  - apply list_elem_of_bind in H as (x & H & _).
    apply list_elem_of_fmap in H as (rest & -> & H).
    cbn [length]. by rewrite (IH _ H).
Qed.

Lemma length_product (lists : list (list string)) :
  Z.of_nat (length (product lists)) = Zprod (lengths lists).
Proof.
  induction lists as [|l ls IH]; [done|].
  unfold lengths, Zprod in *. rewrite fmap_cons. cbn [product foldr].
  rewrite <- IH. clear IH.
  induction l as [|x l IHl]; [simpl; lia|].
  rewrite bind_cons, length_app, length_fmap. cbn [length]. lia.
Qed.

(** The generator, in one equation: nothing without markers or when a tag
    has no values; else the check of the running product; else one URL per
    combination. *)
Lemma generate_urls_from_template_impl_eq (template : string)
    (tag_values : gmap string (list string)) :
  let tags := extract_tags template in
  let lists := working_list tag_values <$> tags in
  generate_urls_from_template_impl template tag_values =
    match tags with
    | [] => Ok []
    | _ :: _ =>
        if decide (Forall (fun t => values_of tag_values t <> []) tags)
        then
          match check_total overflow_message 1 lists with
          | Ok _ => Ok (materialize template tags <$> product lists)
          | Raise e => Raise e
          end
        else Ok []
    end.
Proof.
  cbv zeta. unfold generate_urls_from_template_impl.
  destruct (extract_tags template) as [|t ts] eqn:Ht; [done|].
  set (tags := t :: ts). rewrite collect_lists_spec. cbn [app].
  set (lists := working_list tag_values <$> tags).
  destruct (decide (Forall _ tags)); [|done].
  destruct (check_total overflow_message 1 lists) as [r|e]; [|done].
  cbn [mbind result_bind].
  apply mapM_Ok. intros combo Hc. apply product_length in Hc.
  rewrite substitute_materialize; [done|].
  unfold lists in Hc. rewrite length_fmap in Hc. cbn [drop]. lia.
Qed.

Lemma generate_urls_from_template_shadowed_eq (template : string)
    (tag_values : gmap string (list string)) :
  let tags := extract_tags template in
  let lists := working_list tag_values <$> tags in
  generate_urls_from_template_shadowed template tag_values =
    match tags with
    | [] => Ok []
    | _ :: _ =>
        if decide (Forall (fun t => values_of tag_values t <> []) tags)
        then
          match check_total overflow_message_shadowed 1 lists with
          | Ok _ => Ok (materialize template tags <$> product lists)
          | Raise e => Raise e
          end
        else Ok []
    end.
Proof.
  cbv zeta. unfold generate_urls_from_template_shadowed.
  destruct (extract_tags template) as [|t ts] eqn:Ht; [done|].
  set (tags := t :: ts). rewrite collect_lists_shadowed_eq, collect_lists_spec. cbn [app].
  set (lists := working_list tag_values <$> tags).
  destruct (decide (Forall _ tags)); [|done].
  destruct (check_total overflow_message_shadowed 1 lists) as [r|e]; [|done].
  cbn [mbind result_bind].
  apply mapM_Ok. intros combo Hc. apply product_length in Hc.
  rewrite substitute_materialize; [done|].
  unfold lists in Hc. rewrite length_fmap in Hc. cbn [drop]. lia.
Qed.

Lemma Zprod_pos (ns : list Z) : Forall (fun n => 1 <= n) ns -> 1 <= Zprod ns.
Proof.
  induction 1 as [|n ns Hn _ IH]; [done|]. unfold Zprod in *. cbn [foldr]. nia.
Qed.

Lemma Zprod_take_le (ns : list Z) (i : nat) :
  Forall (fun n => 1 <= n) ns -> Zprod (take i ns) <= Zprod ns.
Proof.
  intros H. revert i. induction H as [|n ns Hn Hns IH]; intros i.
  - by rewrite take_nil.
  - destruct i as [|i].
    + rewrite take_0. pose proof (Zprod_pos ns Hns).
      unfold Zprod in *. cbn [foldr]. nia.
    + specialize (IH i). pose proof (Zprod_pos ns Hns).
      assert (1 <= Zprod (take i ns)).
      { apply Zprod_pos. by apply Forall_take. }
      unfold Zprod in *. cbn [take firstn foldr]. nia.
Qed.

Lemma elem_of_foldl_append_if_absent (xs uniq : list string) (x : string) :
  x ∈ foldl append_if_absent uniq xs <-> x ∈ uniq \/ x ∈ xs.
Proof.
  revert uniq. induction xs as [|y xs IH]; intros uniq; cbn [foldl].
  - rewrite elem_of_nil. tauto.
  - rewrite IH, append_if_absent_elem, elem_of_cons. tauto.
Qed.

Lemma elem_of_first_seen (xs : list string) (x : string) :
  x ∈ first_seen xs <-> x ∈ xs.
Proof.
  unfold first_seen. rewrite elem_of_foldl_append_if_absent, elem_of_nil. tauto.
Qed.

Lemma expand_gacha_name_base_orig (v : string) : v ∈ expand_gacha_name_base v.
Proof.
  unfold expand_gacha_name_base. rewrite dedupe_first_seen, elem_of_first_seen.
  destruct (_ && _); rewrite !append_if_absent_elem; tauto.
Qed.

Lemma expand_gacha_values_orig (v : string) (vs : list string) :
  v ∈ vs -> v ∈ expand_gacha_values vs.
Proof.
  intros Hv. unfold expand_gacha_values.
  rewrite dedupe_first_seen, elem_of_first_seen.
  apply list_elem_of_bind. exists v. split; [|done].
  apply list_elem_of_bind. exists v. split; [|apply expand_gacha_name_base_orig].
  rewrite with_suffixes_unfold. left.
Qed.

Lemma working_list_nonempty (tag_values : gmap string (list string)) (t : string) :
  values_of tag_values t <> [] -> working_list tag_values t <> [].
Proof.
  intros Hne. unfold working_list. destruct (decide (upper t = "G")); [|done].
  destruct (values_of tag_values t) as [|v vs]; [done|].
  intros Hnil. pose proof (expand_gacha_values_orig v (v :: vs)) as Hin.
  rewrite Hnil in Hin. eapply not_elem_of_nil, Hin. left.
Qed.

Lemma working_lengths_pos (template : string) (tag_values : gmap string (list string)) :
  Forall (fun t => values_of tag_values t <> []) (extract_tags template) ->
  Forall (fun n => 1 <= n) (working_lengths template tag_values).
Proof.
  intros H. unfold working_lengths, lengths. rewrite <- list_fmap_compose.
  apply Forall_fmap. eapply Forall_impl; [exact H|].
  intros t Ht. cbn. apply working_list_nonempty in Ht.
  destruct (working_list tag_values t); [done|]. cbn [length]. lia.
Qed.

(** C1, as the code has it.  For a template with at least one marker whose
    tags all have values, with [ns] the lengths of the working lists, one
    per tag occurrence: when the product of [ns] is at most 20000 the
    generator returns exactly that many URLs; when it is larger the
    generator raises, and the count in the error is the running product at
    the first tag where it exceeds 20000 (the product of the first [j]
    lengths, every shorter prefix being within the ceiling), which is what
    the loop has accumulated when it stops, before any combination is
    built. *)
Theorem generate_urls_count (template : string)
    (tag_values : gmap string (list string)) :
  extract_tags template <> [] ->
  (forall t, t ∈ extract_tags template -> values_of tag_values t <> []) ->
  let ns := working_lengths template tag_values in
  (Zprod ns <= MAX_COMBINATIONS ->
     exists urls, generate_urls_from_template template tag_values = Ok urls /\
                  Z.of_nat (length urls) = Zprod ns) /\
  (Zprod ns > MAX_COMBINATIONS ->
     exists j, (1 <= j <= length ns)%nat /\
       Zprod (take j ns) > MAX_COMBINATIONS /\
       (forall i, (i < j)%nat -> Zprod (take i ns) <= MAX_COMBINATIONS) /\
       generate_urls_from_template template tag_values =
         Raise (ValueError (overflow_message (Zprod (take j ns))))).
Proof.
  intros Htags Hvals ns.
  apply Forall_forall in Hvals.
  pose proof (working_lengths_pos template tag_values Hvals) as Hpos. fold ns in Hpos.
  unfold generate_urls_from_template.
  rewrite generate_urls_from_template_impl_eq.
  destruct (extract_tags template) as [|t ts] eqn:Ht; [done|]. rewrite <- Ht in *.
  rewrite decide_True by done.
  set (lists := working_list tag_values <$> extract_tags template).
  assert (Hns : ns = lengths lists) by done.
  assert (Hlen : length ns = length lists).
  { rewrite Hns. unfold lengths. by rewrite length_fmap. }
  pose proof (check_total_spec overflow_message lists 1) as Hc.
  rewrite <- Hns in Hc.
  destruct (check_total overflow_message 1 lists) as [r|e].
  - destruct Hc as [-> Hall]. split.
    + intros _. eexists. split; [done|].
      by rewrite length_fmap, length_product, Hns.
    + intros Hgt. specialize (Hall (length lists)).
      rewrite <- Hlen, firstn_all in Hall.
      assert (length ns <> 0%nat).
      { rewrite Hlen. unfold lists. rewrite length_fmap, Ht. done. }
      lia.
  - destruct Hc as (j & Hj & -> & Hgt & Hbelow).
    rewrite Z.mul_1_l in Hgt. split.
    + intros Hle. pose proof (Zprod_take_le ns j Hpos). lia.
    + intros _. exists j. rewrite Z.mul_1_l. split; [lia|]. split; [done|].
      split; [|done]. intros [|i] Hi.
      * rewrite take_0. done.
      * specialize (Hbelow (S i)). lia.
Qed.

(** [generate_urls_count] at the splash template with two versions, one
    date and two event names: four URLs. *)
Lemma generate_urls_count_witness :
  let tag_values : gmap string (list string) :=
    <["V" := ["50"; "51"]]> (<["T" := ["2024"]]> (<["E" := ["a/b"; "c d"]]> ∅)) in
  exists urls,
    generate_urls_from_template TEMPLATE_BANNER_SPLASH tag_values = Ok urls /\
    Z.of_nat (length urls) = 4.
Proof.
  intros tag_values.
  apply (generate_urls_count TEMPLATE_BANNER_SPLASH tag_values).
  - by vm_compute.
  - intros t Ht. vm_compute in Ht.
    apply elem_of_cons in Ht as [->|Ht]; [by vm_compute|].
    apply elem_of_cons in Ht as [->|Ht]; [by vm_compute|].
    apply elem_of_cons in Ht as [->|Ht]; [by vm_compute|].
    by apply elem_of_nil in Ht.
  - by vm_compute.
Defined.

(** C1 as stated fails: with five tags of 12, 12, 12, 12 and 2 values the
    product is 41472, and the error carries 20736, the running product
    after the fourth tag. *)
Lemma generate_urls_overflow_count_is_prefix :
  let twelve := (fun i => str_of_int i) <$> seqZ 1 12 in
  let tag_values : gmap string (list string) :=
    <["A" := twelve]> (<["B" := twelve]> (<["C" := twelve]> (<["D" := twelve]>
      (<["E" := ["x"; "y"]]> ∅)))) in
  let template := "[A][B][C][D][E]" in
  extract_tags template = ["A"; "B"; "C"; "D"; "E"] /\
  working_lengths template tag_values = [12; 12; 12; 12; 2] /\
  Zprod (working_lengths template tag_values) = 41472 /\
  generate_urls_from_template template tag_values =
    Raise (ValueError (overflow_message 20736)) /\
  generate_urls_from_template template tag_values <>
    Raise (ValueError (overflow_message (Zprod (working_lengths template tag_values)))).
Proof.
  cbv zeta. split; [by vm_compute|]. split; [by vm_compute|].
  split; [by vm_compute|]. split; [by vm_compute|].
  vm_compute. discriminate.
Qed.

Lemma values_of_nil (tag_values : gmap string (list string)) (t : string) :
  values_of tag_values t = [] <->
  tag_values !! t = None \/ tag_values !! t = Some [].
Proof.
  unfold values_of. destruct (tag_values !! t) as [vals|]; simpl.
  - split; [intros ->; by right|]. intros [?|?]; congruence.
  - split; [by left|done].
Qed.

(** C8. The generator returns the empty list, and no error, exactly when
    the template has no marker or some tag of the template is absent from
    the mapping or mapped to the empty list, whatever the sizes of the
    other value lists.  In the handler this result gets the reply of its
    own, [NothingGenerated]: neither the text of the combination error nor
    the "not found" of a search, which is not started. *)
Theorem generate_urls_empty (template : string)
    (tag_values : gmap string (list string)) :
  let incomplete :=
    extract_tags template = [] \/
    exists t, t ∈ extract_tags template /\
              (tag_values !! t = None \/ tag_values !! t = Some []) in
  (incomplete <-> generate_urls_from_template template tag_values = Ok []) /\
  (incomplete -> template <> "BANNER" ->
   forall find_first_live_url,
     finish_tag_input find_first_live_url (Some template) tag_values
       = [NothingGenerated]).
Proof.
  intros incomplete.
  assert (Hiff : incomplete <-> generate_urls_from_template template tag_values = Ok []).
  { unfold incomplete, generate_urls_from_template.
    rewrite generate_urls_from_template_impl_eq.
    destruct (extract_tags template) as [|t ts] eqn:Ht; [by split; [|left]|].
    rewrite <- Ht.
    destruct (decide (Forall (fun t => values_of tag_values t <> []) (extract_tags template)))
      as [Hall|Hsome].
    - pose proof (working_lengths_pos template tag_values Hall) as Hpos.
      apply Zprod_pos in Hpos. unfold working_lengths in Hpos.
      rewrite <- length_product in Hpos.
      split.
      + intros [Hnil|(t' & Hin & Hmiss)]; [by rewrite Ht in Hnil|].
        apply values_of_nil in Hmiss.
        rewrite Forall_forall in Hall. by destruct (Hall t' Hin).
      + destruct (check_total _ _ _); [|done]. intros [= Hempty].
        apply fmap_nil_inv in Hempty. rewrite Hempty in Hpos. simpl in Hpos. lia.
    - split; [done|]. intros _. right.
      apply not_Forall_Exists in Hsome; [|apply _].
      apply Exists_exists in Hsome as (t' & Hin & Hmiss).
      exists t'. split; [done|]. apply values_of_nil.
      by apply dec_stable in Hmiss. }
  split; [done|].
  intros Hinc Hb search. apply Hiff in Hinc.
  unfold finish_tag_input, build_urls.
  rewrite decide_False by congruence. by rewrite Hinc.
Qed.

(** [generate_urls_empty] at the gacha template when the event name has
    not been given. *)
Lemma generate_urls_empty_witness :
  let tag_values : gmap string (list string) :=
    <["V" := ["50"]]> (<["G" := ["Skull"]]> (<["T" := ["0101"]]> ∅)) in
  generate_urls_from_template TEMPLATE_GACHA tag_values = Ok [] /\
  finish_tag_input (fun _ => None) (Some TEMPLATE_GACHA) tag_values
    = [NothingGenerated].
Proof.
  intros tag_values.
  assert (Hinc : extract_tags TEMPLATE_GACHA = [] \/
            exists t, t ∈ extract_tags TEMPLATE_GACHA /\
              (tag_values !! t = None \/ tag_values !! t = Some [])).
  { right. exists "E". split; [|left; reflexivity].
    apply (bool_decide_unpack _). by vm_compute. }
  split.
  - apply (generate_urls_empty TEMPLATE_GACHA tag_values), Hinc.
  - apply (generate_urls_empty TEMPLATE_GACHA tag_values); [exact Hinc|discriminate].
Defined.

Lemma check_total_messages (m1 m2 : Z -> string) (lists : list (list string)) (total : Z) :
  match check_total m1 total lists, check_total m2 total lists with
  | Ok r1, Ok r2 => r1 = r2
  | Raise e1, Raise e2 =>
      exists n, n > MAX_COMBINATIONS /\ e1 = ValueError (m1 n) /\ e2 = ValueError (m2 n)
  | _, _ => False
  end.
Proof.
  revert total. induction lists as [|l ls IH]; intros total; [done|].
  cbn [check_total].
  destruct (decide (total * Z.of_nat (length l) > MAX_COMBINATIONS)); [|apply IH].
  by eexists.
Qed.

(** C9. The first definition of [generate_urls_from_template] and
    [__generate_urls_from_template_impl] agree on every template and every
    mapping: both return the same list of URLs, or both raise the
    combination error, for the same count (the wording of the two messages
    differs).  The branch of the first definition for an all-digit "T" tag
    appends the raw values, as its default branch does. *)
Theorem shadowed_definition_agrees (template : string)
    (tag_values : gmap string (list string)) :
  match generate_urls_from_template_shadowed template tag_values,
        generate_urls_from_template_impl template tag_values with
  | Ok urls1, Ok urls2 => urls1 = urls2
  | Raise e1, Raise e2 =>
      exists total, total > MAX_COMBINATIONS /\
        e1 = ValueError (overflow_message_shadowed total) /\
        e2 = ValueError (overflow_message total)
  | _, _ => False
  end.
Proof.
  rewrite generate_urls_from_template_shadowed_eq, generate_urls_from_template_impl_eq.
  destruct (extract_tags template) as [|t ts] eqn:Ht; [done|]. rewrite <- Ht.
  destruct (decide (Forall _ _)); [|done].
  pose proof (check_total_messages overflow_message_shadowed overflow_message
                (working_list tag_values <$> extract_tags template) 1) as H.
  destruct (check_total overflow_message_shadowed _ _),
           (check_total overflow_message _ _); done.
Qed.

(** ** Replacement and percent-encoding *)

Lemma replace_from_skip (pre s old new : string) :
  Str.replace_from (String.length pre) (pre +:+ s) old new =
  Str.replace_from 0 s old new.
Proof.
  induction pre as [|c pre IH]; [done|].
  rewrite str_app_cons. cbn [String.length Str.replace_from]. apply IH.
Qed.

Lemma replace_from_match (c : ascii) (old' post new : string) :
  Str.replace_from 0 (String c old' +:+ post) (String c old') new =
  new +:+ Str.replace_from 0 post (String c old') new.
Proof.
  assert (Hs : Str.startswith (String c old') (String c (old' +:+ post)) = true).
  { rewrite <- str_app_cons. apply startswith_app. }
  rewrite str_app_cons. cbn [Str.replace_from]. rewrite Hs.
  replace (String.length (String c old') - 1)%nat with (String.length old')
    by (cbn [String.length]; lia).
  by rewrite replace_from_skip.
Qed.

Lemma replace_from_nomatch (c : ascii) (s old new : string) :
  Str.startswith old (String c s) = false ->
  Str.replace_from 0 (String c s) old new = String c (Str.replace_from 0 s old new).
Proof. intros H. cbn [Str.replace_from]. by rewrite H. Qed.

(** A stretch without the first character of [old] is copied. *)
Lemma replace_from_pass (pre s : string) (c : ascii) (old' new : string) :
  Str.mem c pre = false ->
  Str.replace_from 0 (pre +:+ s) (String c old') new =
  pre +:+ Str.replace_from 0 s (String c old') new.
Proof.
  induction pre as [|d pre IH]; intros Hmem; [done|].
  cbn [Str.mem] in Hmem. destruct (decide (c = d)) as [|Hcd]; [done|].
  rewrite !str_app_cons, replace_from_nomatch, IH; [done..|].
  cbn [Str.startswith]. by rewrite decide_False.
Qed.

Lemma count_app (c : ascii) (s t : string) :
  Str.count c (s +:+ t) = (Str.count c s + Str.count c t)%nat.
Proof.
  induction s as [|d s IH]; [done|].
  rewrite str_app_cons. cbn [Str.count]. rewrite IH. lia.
Qed.

Lemma count_mem (c : ascii) (s : string) :
  Str.mem c s = false -> Str.count c s = 0%nat.
Proof.
  induction s as [|d s IH]; [done|]. cbn [Str.mem Str.count].
  destruct (decide (c = d)); [done|]. intros H. by rewrite IH.
Qed.

(** Replacing a pattern without [c] by a text without [c] keeps the number
    of occurrences of [c]. *)
Lemma count_replace (c : ascii) (s old new : string) :
  old <> "" -> Str.mem c old = false -> Str.mem c new = false ->
  Str.count c (Str.replace s old new) = Str.count c s.
Proof.
  intros Hne Hold Hnew. destruct old as [|o old']; [done|]. cbn [Str.replace].
  remember (String.length s) as n eqn:Hn.
  revert s Hn. induction n as [n IH] using lt_wf_ind. intros s Hn.
  destruct s as [|d s]; [done|].
  destruct (Str.startswith (String o old') (String d s)) eqn:Hs.
  - apply startswith_inv in Hs as [post Hpost]. rewrite Hpost.
    rewrite replace_from_match, !count_app.
    rewrite (count_mem _ _ Hold), (count_mem _ _ Hnew).
    rewrite (IH (String.length post)); [done| |done].
    rewrite Hn, Hpost, str_length_app. cbn [String.length]. lia.
  - rewrite replace_from_nomatch by done. cbn [Str.count].
    rewrite (IH (String.length s)); [done| |done].
    rewrite Hn. cbn [String.length]. lia.
Qed.

Lemma all_app (p : ascii -> bool) (s t : string) :
  Str.all p (s +:+ t) = Str.all p s && Str.all p t.
Proof.
  induction s as [|d s IH]; [done|].
  rewrite str_app_cons. cbn [Str.all]. by rewrite IH, andb_assoc.
Qed.

Lemma all_mem (p : ascii -> bool) (c : ascii) (s : string) :
  Str.all p s = true -> p c = false -> Str.mem c s = false.
Proof.
  intros Hall Hc. induction s as [|d s IH]; [done|].
  cbn [Str.all] in Hall. apply andb_true_iff in Hall as [Hd Hall].
  cbn [Str.mem]. destruct (decide (c = d)) as [->|]; [congruence|by apply IH].
Qed.

Lemma quote_char_quoted (c : ascii) : Str.all quoted_char (quote_char "" c) = true.
Proof. destruct c as [[] [] [] [] [] [] [] []]; reflexivity. Qed.

Lemma quote_quoted (s : string) : Str.all quoted_char (quote s "") = true.
Proof.
  induction s as [|c s IH]; [done|].
  cbn [quote]. by rewrite all_app, quote_char_quoted, IH.
Qed.

Lemma quote_app (s t safe : string) :
  quote (s +:+ t) safe = quote s safe +:+ quote t safe.
Proof.
  induction s as [|c s IH]; [done|].
  rewrite str_app_cons. cbn [quote]. by rewrite IH, str_app_assoc.
Qed.

Lemma quote_no_slash (s : string) : Str.mem "/" (quote s "") = false.
Proof. apply (all_mem quoted_char); [apply quote_quoted|done]. Qed.

Lemma quote_no_bracket (s : string) : Str.mem "[" (quote s "") = false.
Proof. apply (all_mem quoted_char); [apply quote_quoted|done]. Qed.

Lemma mem_app (c : ascii) (s t : string) :
  Str.mem c (s +:+ t) = Str.mem c s || Str.mem c t.
Proof.
  induction s as [|d s IH]; [done|].
  rewrite str_app_cons. cbn [Str.mem]. by destruct (decide (c = d)).
Qed.

Lemma marker_no_slash (t : string) :
  Str.all is_alnum t = true -> Str.mem "/" (marker t) = false.
Proof.
  intros Ht. unfold marker. rewrite !mem_app.
  by rewrite (all_mem is_alnum "/" t Ht).
Qed.

Lemma materialize_count_slash (tags combo : list string) (u : string) :
  Forall (fun t => Str.all is_alnum t = true) tags ->
  Str.count "/" (materialize u tags combo) = Str.count "/" u.
Proof.
  intros Htags. revert u combo.
  induction Htags as [|t ts Ht _ IH]; intros u combo; [done|].
  destruct combo as [|value rest]; [done|]. cbn [materialize].
  rewrite IH. apply count_replace.
  - by unfold marker.
  - by apply marker_no_slash.
  - apply quote_no_slash.
Qed.

Lemma startswith_cons_same (a : ascii) (p s : string) :
  Str.startswith (String a p) (String a s) = Str.startswith p s.
Proof. cbn [Str.startswith]. by rewrite decide_True. Qed.

(** One occurrence, behind a stretch free of the first character of [old]
    and before a rest that holds no occurrence. *)
Lemma replace_once (A B : string) (c : ascii) (old' new : string) :
  Str.mem c A = false ->
  Str.replace_from 0 B (String c old') new = B ->
  Str.replace (A +:+ String c old' +:+ B) (String c old') new = A +:+ new +:+ B.
Proof.
  intros HA HB. cbn [Str.replace].
  by rewrite replace_from_pass, replace_from_match, HB.
Qed.

(** ** Templates by their parts *)

Lemma span_alnum_bracket (t rest : string) :
  Str.all is_alnum t = true ->
  span_alnum (t +:+ String "]" rest) = (t, String "]" rest).
Proof.
  induction t as [|c t IH]; intros Ht; [done|].
  cbn [Str.all] in Ht. apply andb_true_iff in Ht as [Hc Ht].
  rewrite str_app_cons. cbn [span_alnum]. by rewrite Hc, IH.
Qed.

Lemma match_tag_marker (t rest : string) :
  fullmatch_alnum t = true -> match_tag (marker t +:+ rest) = Some (t, rest).
Proof.
  intros [Hne Hall]%fullmatch_alnum_iff.
  unfold marker. rewrite !str_app_assoc. rewrite (str_app_cons "[" "").
  rewrite str_app_nil_l, (str_app_cons "]" ""), str_app_nil_l.
  unfold match_tag. rewrite span_alnum_bracket by done. by destruct t.
Qed.

Lemma findall_from_skip (pre s : string) :
  findall_from (String.length pre) (pre +:+ s) = findall_from 0 s.
Proof.
  induction pre as [|c pre IH]; [done|].
  rewrite str_app_cons. cbn [String.length findall_from]. apply IH.
Qed.

Lemma findall_from_gap (gap s : string) :
  Str.mem "[" gap = false -> findall_from 0 (gap +:+ s) = findall_from 0 s.
Proof.
  induction gap as [|c gap IH]; intros Hg; [done|].
  cbn [Str.mem] in Hg. destruct (decide ("["%char = c)) as [|Hc]; [done|].
  rewrite str_app_cons. cbn [findall_from].
  assert (Hm : match_tag (String c (gap +:+ s)) = None).
  { unfold match_tag. destruct c as [[] [] [] [] [] [] [] []]; done. }
  rewrite Hm. by apply IH.
Qed.

Lemma findall_from_marker (t s : string) :
  fullmatch_alnum t = true ->
  findall_from 0 (marker t +:+ s) = t :: findall_from 0 s.
Proof.
  intros Ht. pose proof (match_tag_marker t s Ht) as Hm.
  unfold marker in *. rewrite !str_app_assoc in *.
  rewrite (str_app_cons "[" ""), str_app_nil_l in *.
  cbn [findall_from]. rewrite Hm. f_equal.
  rewrite <- (findall_from_skip (t +:+ "]") s), str_app_assoc, str_length_app.
  cbn [String.length]. by rewrite Nat.add_1_r.
Qed.

Lemma extract_tags_render (gap : string) (parts : list (string * string)) :
  plain_template gap parts -> extract_tags (render gap parts) = parts.*1.
Proof.
  intros (Hgap & Hparts & _). unfold extract_tags.
  revert gap Hgap. induction Hparts as [|[t g] ps [Ht Hg] _ IH]; intros gap Hgap.
  - cbn [render]. rewrite <- (str_app_nil_r gap). by rewrite findall_from_gap.
  - cbn [render fmap list_fmap fst].
    rewrite findall_from_gap, findall_from_marker by done. f_equal. by apply IH.
Qed.

Lemma startswith_other_tag (t t' rest : string) :
  Str.all is_alnum t = true -> Str.all is_alnum t' = true -> t <> t' ->
  Str.startswith (t +:+ "]") (t' +:+ String "]" rest) = false.
Proof.
  revert t'. induction t as [|c t IH]; intros [|c' t'] Ht Ht' Hne; try done.
  - rewrite str_app_cons, str_app_nil_l. cbn [Str.startswith Str.all] in *.
    apply andb_true_iff in Ht' as [Hc' _].
    rewrite decide_False; [done|]. by intros <-.
  - rewrite str_app_cons, str_app_nil_l. cbn [Str.startswith Str.all] in *.
    apply andb_true_iff in Ht as [Hc _].
    rewrite decide_False; [done|]. by intros ->.
  - rewrite !str_app_cons. cbn [Str.startswith Str.all] in *.
    apply andb_true_iff in Ht as [_ Ht]. apply andb_true_iff in Ht' as [_ Ht'].
    destruct (decide (c = c')) as [->|]; [|done].
    apply IH; [done..|]. by intros ->.
Qed.

(** The marker of a tag that is not among the parts does not occur. *)
Lemma replace_from_render_absent (t new gap : string) (parts : list (string * string)) :
  fullmatch_alnum t = true -> t ∉ parts.*1 ->
  Str.mem "[" gap = false ->
  Forall (fun p => fullmatch_alnum p.1 = true /\ Str.mem "[" p.2 = false) parts ->
  Str.replace_from 0 (render gap parts) (marker t) new = render gap parts.
Proof.
  intros [_ Ht]%fullmatch_alnum_iff Hnotin Hgap Hparts.
  change (marker t) with (String "[" (t +:+ "]")).
  revert gap Hgap Hnotin.
  induction Hparts as [|[t' g] ps [Ht' Hg] _ IH]; intros gap Hgap Hnotin.
  - cbn [render]. rewrite <- (str_app_nil_r gap) at 1.
    by rewrite replace_from_pass, str_app_nil_r.
  - cbn [render fmap list_fmap fst] in *.
    apply not_elem_of_cons in Hnotin as [Hne Hnotin].
    apply fullmatch_alnum_iff in Ht' as [_ Ht'].
    rewrite replace_from_pass by done. f_equal.
    change (marker t') with (String "[" (t' +:+ "]")).
    rewrite str_app_cons, str_app_assoc, (str_app_cons "]" ""), str_app_nil_l.
    rewrite replace_from_nomatch.
    2:{ rewrite startswith_cons_same. by apply startswith_other_tag. }
    f_equal. rewrite (replace_from_pass t') by (by apply (all_mem is_alnum)).
    f_equal. change (String "]" (render g ps)) with ("]" +:+ render g ps).
    rewrite (replace_from_pass "]") by done. f_equal. by apply IH.
Qed.

(** On a plain template the replacements put every value, encoded, in the
    place of its marker and change nothing else. *)
Lemma materialize_render (parts : list (string * string)) :
  forall (filled gap : string) (values : list string),
  Str.mem "[" filled = false ->
  plain_template gap parts ->
  materialize (filled +:+ render gap parts) parts.*1 values =
  filled +:+ fill gap parts values.
Proof.
  induction parts as [|[t g] ps IH]; intros filled gap values Hdone (Hgap & Hparts & Hnd).
  - by destruct values.
  - destruct values as [|value rest]; [done|].
    apply Forall_cons in Hparts as [[Ht Hg] Hparts].
    cbn [fmap list_fmap fst] in Hnd. apply NoDup_cons in Hnd as [Hnotin Hnd].
    cbn [fmap list_fmap fst materialize render fill].
    assert (Hm : marker t = String "[" (t +:+ "]")) by done.
    rewrite <- str_app_assoc.
    rewrite Hm at 1 2. rewrite replace_once.
    + rewrite <- str_app_assoc. rewrite IH; [by rewrite !str_app_assoc| |done].
      by rewrite !mem_app, Hdone, Hgap, quote_no_bracket.
    + by rewrite mem_app, Hdone, Hgap.
    + rewrite <- Hm. by apply replace_from_render_absent.
Qed.

(** C6. Every URL the generator returns is the template with each marker
    replaced by [quote(value, safe='')] of a value of the combination: the
    encoder is called with the empty safe set, so a character is left as it
    is only if it is a letter, a digit or one of "_.-~", and is written as
    a percent sign and two hexadecimal digits otherwise.  A "/" of a value
    becomes "%2F", the encoded value holds no "/", and a URL has exactly
    the "/" characters of its template.  When the markers are all the
    opening brackets of the template and no tag repeats, the URL is the
    text of the template with every value, encoded, in the place of its
    marker. *)
Theorem quote_leaves_no_slash (template : string)
    (tag_values : gmap string (list string)) (urls : list string) (u : string) :
  generate_urls_from_template template tag_values = Ok urls ->
  u ∈ urls ->
  (exists combo,
     combo ∈ product (working_list tag_values <$> extract_tags template) /\
     u = materialize template (extract_tags template) combo /\
     (forall gap parts, plain_template gap parts -> template = render gap parts ->
                        u = fill gap parts combo)) /\
  Str.count "/" u = Str.count "/" template /\
  (forall value, Str.mem "/" (quote value "") = false) /\
  (forall a b, quote (a +:+ "/" +:+ b) "" = quote a "" +:+ "%2F" +:+ quote b "") /\
  (forall c, quote_char "" c = if always_safe c then String c "" else percent c).
Proof.
  intros Hgen Hu.
  assert (Hcombo : exists combo,
     combo ∈ product (working_list tag_values <$> extract_tags template) /\
     u = materialize template (extract_tags template) combo).
  { unfold generate_urls_from_template in Hgen.
    rewrite generate_urls_from_template_impl_eq in Hgen.
    destruct (extract_tags template) as [|t ts] eqn:Ht.
    { inversion Hgen; subst. by apply elem_of_nil in Hu. }
    rewrite <- Ht in *.
    destruct (decide (Forall _ _)).
    2:{ inversion Hgen; subst. by apply elem_of_nil in Hu. }
    destruct (check_total _ _ _); [|done].
    inversion Hgen; subst.
    apply list_elem_of_fmap in Hu as (combo & -> & Hc). by exists combo. }
  split; [|split].
  - destruct Hcombo as (combo & Hc & ->). exists combo.
    split; [done|]. split; [done|].
    intros gap parts Hplain ->. rewrite (extract_tags_render _ _ Hplain).
    by apply (materialize_render parts "" gap combo).
  - destruct Hcombo as (combo & _ & ->). apply materialize_count_slash.
    apply Forall_forall. intros t Ht.
    apply findall_from_spec in Ht as [Hf _].
    by apply fullmatch_alnum_iff in Hf as [_ ?].
  - split; [apply quote_no_slash|]. split.
    + intros a b. by rewrite !quote_app.
    + intros c. unfold quote_char. cbn [Str.mem].
      by rewrite andb_false_r, orb_false_r.
Qed.

(** [quote_leaves_no_slash] at the splash template with an event name that
    holds a "/": the URL has the six "/" of the template, and it is the
    text of the template around "50", "2024" and "a%2Fb". *)
Lemma quote_leaves_no_slash_witness :
  let tag_values : gmap string (list string) :=
    <["V" := ["50"]]> (<["T" := ["2024"]]> (<["E" := ["a/b"]]> ∅)) in
  let u := "https://dl.dir.freefiremobile.com/common/OB50/ID/2024_a%2Fb/splash.jpg" in
  let gap := "https://dl.dir.freefiremobile.com/common/OB" in
  let parts := [("V", "/ID/"); ("T", "_"); ("E", "/splash.jpg")] in
  generate_urls_from_template TEMPLATE_BANNER_SPLASH tag_values = Ok [u] /\
  plain_template gap parts /\
  Str.count "/" u = Str.count "/" TEMPLATE_BANNER_SPLASH /\
  u = fill gap parts ["50"; "2024"; "a/b"].
Proof.
  intros tag_values u gap parts.
  assert (Hgen : generate_urls_from_template TEMPLATE_BANNER_SPLASH tag_values = Ok [u])
    by (by vm_compute).
  assert (Hplain : plain_template gap parts).
  { split; [reflexivity|]. split.
    - repeat (apply Forall_cons; split; [by split|]). constructor.
    - apply (bool_decide_unpack _). by vm_compute. }
  assert (Hu : u ∈ [u]) by left.
  destruct (quote_leaves_no_slash TEMPLATE_BANNER_SPLASH tag_values [u] u Hgen Hu)
    as ((combo & Hc & _ & Hfill) & Hcount & _).
  split; [exact Hgen|]. split; [exact Hplain|]. split; [exact Hcount|].
  vm_compute in Hc. apply list_elem_of_singleton in Hc as ->.
  by apply Hfill.
Defined.

(** ** The banner composite *)

Lemma startswith_quote (p t : string) :
  Str.all always_safe p = true ->
  Str.startswith p (quote t "") = Str.startswith p t.
Proof.
  revert t. induction p as [|a p IH]; intros t Hp; [done|].
  cbn [Str.all] in Hp. apply andb_true_iff in Hp as [Ha Hp].
  destruct t as [|c t]; [done|].
  cbn [quote Str.startswith]. unfold quote_char. cbn [Str.mem].
  rewrite andb_false_r, orb_false_r.
  destruct (always_safe c) eqn:Hc.
  - rewrite str_app_cons, str_app_nil_l. cbn [Str.startswith].
    destruct (decide (a = c)); [by apply IH|done].
  - unfold percent. rewrite str_app_cons. cbn [Str.startswith].
    rewrite decide_False by (intros ->; done).
    rewrite decide_False by (intros ->; congruence). done.
Qed.

Lemma startswith_app_sep (p a : string) (d : ascii) (rest : string) :
  Str.startswith p a = false -> Str.mem d p = false ->
  Str.startswith p (a +:+ String d rest) = false.
Proof.
  revert a. induction p as [|x p IH]; intros a Ha Hd; [done|].
  cbn [Str.mem] in Hd. destruct (decide (d = x)) as [|Hdx]; [done|].
  destruct a as [|y a].
  - rewrite str_app_nil_l. cbn [Str.startswith]. by rewrite decide_False.
  - rewrite str_app_cons. cbn [Str.startswith] in *.
    destruct (decide (x = y)); [by apply IH|done].
Qed.

Lemma banner_template_plain (file : string) :
  Str.mem "[" file = false ->
  plain_template "https://dl.dir.freefiremobile.com/common/OB"
    [("V", "/ID/"); ("T", "_"); ("E", file)].
Proof.
  intros Hfile. split; [done|]. split.
  - repeat (apply Forall_cons; split; [by split|]). constructor.
  - apply (bool_decide_unpack _). by vm_compute.
Qed.

Lemma materialize_banner (file v t e : string) :
  Str.mem "[" file = false ->
  materialize ("https://dl.dir.freefiremobile.com/common/OB[V]/ID/[T]_[E]" +:+ file)
    ["V"; "T"; "E"] [v; t; e] =
  banner_stem [v; t; e] +:+ file.
Proof.
  intros Hfile.
  pose proof (materialize_render [("V", "/ID/"); ("T", "_"); ("E", file)] ""
                "https://dl.dir.freefiremobile.com/common/OB" [v; t; e] eq_refl
                (banner_template_plain file Hfile)) as H.
  rewrite !str_app_nil_l in H. cbn [fmap list_fmap fst] in H.
  etrans; [exact H|]. cbn [fill render banner_stem]. by rewrite !str_app_assoc.
Qed.

Lemma materialize_banner_splash (v t e : string) :
  materialize TEMPLATE_BANNER_SPLASH ["V"; "T"; "E"] [v; t; e] =
  banner_stem [v; t; e] +:+ "/splash.jpg".
Proof. by apply (materialize_banner "/splash.jpg"). Qed.

Lemma materialize_banner_overview (v t e : string) :
  materialize TEMPLATE_BANNER_OVERVIEW ["V"; "T"; "E"] [v; t; e] =
  banner_stem [v; t; e] +:+ "/overview.jpg".
Proof. by apply (materialize_banner "/overview.jpg"). Qed.

(** In an overview URL whose date does not begin with "overview.jpg", the
    only occurrence of "/overview.jpg" is the file name. *)
Lemma replace_overview (v t e new : string) :
  Str.startswith "overview.jpg" t = false ->
  Str.replace (banner_stem [v; t; e] +:+ "/overview.jpg") "/overview.jpg" new =
  banner_stem [v; t; e] +:+ new.
Proof.
  intros Ht. cbn [banner_stem Str.replace].
  rewrite !str_app_assoc.
  assert (Hhead : forall s,
    Str.replace_from 0 ("https://dl.dir.freefiremobile.com/common/OB" +:+ s)
      "/overview.jpg" new =
    "https://dl.dir.freefiremobile.com/common/OB"
      +:+ Str.replace_from 0 s "/overview.jpg" new) by reflexivity.
  assert (Hid : forall s,
    Str.replace_from 0 ("/ID" +:+ s) "/overview.jpg" new =
    "/ID" +:+ Str.replace_from 0 s "/overview.jpg" new) by reflexivity.
  rewrite Hhead, (replace_from_pass (quote v "")) by apply quote_no_slash.
  change "/ID/" with ("/ID" +:+ "/"). rewrite (str_app_assoc "/ID" "/"), Hid.
  rewrite (str_app_cons "/" ""), str_app_nil_l.
  rewrite replace_from_nomatch.
  2:{ rewrite (startswith_cons_same "/" "overview.jpg").
      apply startswith_app_sep; [|done].
      by rewrite startswith_quote. }
  rewrite (replace_from_pass (quote t "")) by apply quote_no_slash.
  rewrite (replace_from_pass "_") by done.
  rewrite (replace_from_pass (quote e "")) by apply quote_no_slash.
  rewrite <- (str_app_nil_r "/overview.jpg") at 1.
  rewrite replace_from_match. cbn [Str.replace_from].
  by rewrite str_app_nil_r.
Qed.

Lemma product_nil (lists : list (list string)) :
  [] ∈ lists -> product lists = [].
Proof.
  induction lists as [|l ls IH]; intros H; [by apply elem_of_nil in H|].
  cbn [product]. apply elem_of_cons in H as [<-|H]; [done|].
  rewrite (IH H). clear. induction l as [|x l IHl]; [done|].
  by rewrite bind_cons, IHl.
Qed.

Lemma product_three (A B C : list string) (combo : list string) :
  combo ∈ product [A; B; C] ->
  exists v t e, combo = [v; t; e] /\ v ∈ A /\ t ∈ B /\ e ∈ C.
Proof.
  cbn [product]. intros H.
  apply list_elem_of_bind in H as (v & H & Hv).
  apply list_elem_of_fmap in H as (c1 & -> & H).
  apply list_elem_of_bind in H as (t & H & Ht).
  apply list_elem_of_fmap in H as (c2 & -> & H).
  apply list_elem_of_bind in H as (e & H & He).
  apply list_elem_of_fmap in H as (c3 & -> & H).
  apply list_elem_of_singleton in H as ->.
  by exists v, t, e.
Qed.

Lemma fmap_ext_elem {A B : Type} (f g : A -> B) (l : list A) :
  (forall x, x ∈ l -> f x = g x) -> f <$> l = g <$> l.
Proof. intros H. apply Forall_fmap_ext_1, Forall_forall, H. Qed.

Lemma bind_ext_elem {A B : Type} (f g : A -> list B) (l : list A) :
  (forall x, x ∈ l -> f x = g x) -> l ≫= f = l ≫= g.
Proof.
  induction l as [|x l IH]; intros H; [done|].
  rewrite !bind_cons, (H x) by left. rewrite IH; [done|].
  intros y Hy. apply H. by right.
Qed.

Lemma bind_fmap {A B C : Type} (g : A -> B) (h : B -> list C) (l : list A) :
  (g <$> l) ≫= h = l ≫= (fun x => h (g x)).
Proof.
  induction l as [|x l IH]; [done|].
  by rewrite fmap_cons, !bind_cons, IH.
Qed.

Lemma length_banner_overview_variants (combos : list (list string)) :
  length (banner_overview_variants combos) = (5 * length combos)%nat.
Proof.
  unfold banner_overview_variants.
  induction combos as [|c combos IH]; [done|].
  rewrite bind_cons, length_app, IH, length_fmap. cbn [length OVERVIEW_VARIANTS]. lia.
Qed.

Lemma banner_lists_incomplete (tag_values : gmap string (list string)) :
  ~ Forall (fun t => values_of tag_values t <> []) ["V"; "T"; "E"] ->
  product (banner_lists tag_values) = [].
Proof.
  intros Hsome. apply product_nil. unfold banner_lists.
  apply not_Forall_Exists in Hsome; [|apply _].
  apply Exists_exists in Hsome as (t & Ht & Hmiss).
  apply dec_stable in Hmiss.
  rewrite !elem_of_cons, elem_of_nil in Ht.
  destruct Ht as [->|[->|[->|[]]]]; rewrite Hmiss;
    [left|right; left|right; right; left].
Qed.

(** The generator on a template with the tags of a banner template. *)
Lemma generate_banner_template (template file : string)
    (tag_values : gmap string (list string)) :
  extract_tags template = ["V"; "T"; "E"] ->
  (forall v t e, materialize template ["V"; "T"; "E"] [v; t; e] =
                 banner_stem [v; t; e] +:+ file) ->
  generate_urls_from_template template tag_values =
    if decide (Forall (fun t => values_of tag_values t <> []) ["V"; "T"; "E"])
    then
      match check_total overflow_message 1 (banner_lists tag_values) with
      | Ok _ => Ok ((fun c => banner_stem c +:+ file) <$> product (banner_lists tag_values))
      | Raise e => Raise e
      end
    else Ok [].
Proof.
  intros Htags Hmat. unfold generate_urls_from_template.
  rewrite generate_urls_from_template_impl_eq, Htags.
  assert (Hlists : working_list tag_values <$> ["V"; "T"; "E"] = banner_lists tag_values).
  { unfold banner_lists, working_list. cbn [fmap list_fmap].
    by rewrite !decide_False by (by vm_compute). }
  rewrite Hlists.
  assert (Hurls : materialize template ["V"; "T"; "E"] <$> product (banner_lists tag_values)
                  = (fun c => banner_stem c +:+ file) <$> product (banner_lists tag_values)).
  { apply fmap_ext_elem. intros combo Hc.
    apply product_three in Hc as (v & t & e & -> & _). apply Hmat. }
  by rewrite Hurls.
Qed.

(** X19. Banner mode away from dates that begin with "overview.jpg".  For
    every mapping in which no date (a value of tag T) does: both templates are
    expanded over the same combinations of version, date and event name,
    each expansion with its own check against the ceiling of 20000 (so
    both raise, with the same error, or neither does, and each holds at
    most 20000 URLs); the candidate list is the splash URLs first, then,
    for each overview URL in order, the five URLs whose file name is each
    spelling of [OVERVIEW_VARIANTS] in place of the trailing
    "overview.jpg": one splash URL and five overview URLs per combination.
    The composite list itself is not checked against the ceiling. *)
Theorem banner_composite (tag_values : gmap string (list string)) :
  (forall t, t ∈ values_of tag_values "T" -> Str.startswith "overview.jpg" t = false) ->
  let combos := product (banner_lists tag_values) in
  match generate_urls_from_template TEMPLATE_BANNER_SPLASH tag_values,
        generate_urls_from_template TEMPLATE_BANNER_OVERVIEW tag_values with
  | Ok splash_urls, Ok base_ov_urls =>
      splash_urls = banner_splash combos /\
      base_ov_urls = banner_overview combos /\
      Z.of_nat (length splash_urls) <= MAX_COMBINATIONS /\
      Z.of_nat (length base_ov_urls) <= MAX_COMBINATIONS /\
      build_urls (Some "BANNER") tag_values =
        Ok (splash_urls ++ banner_overview_variants combos) /\
      length (splash_urls ++ banner_overview_variants combos) =
        (length splash_urls + 5 * length base_ov_urls)%nat
  | Raise e1, Raise e2 =>
      e1 = e2 /\ build_urls (Some "BANNER") tag_values = Raise e1
  | _, _ => False
  end.
Proof.
  intros HT combos.
  pose proof (generate_banner_template TEMPLATE_BANNER_SPLASH "/splash.jpg" tag_values
                eq_refl materialize_banner_splash) as Hs.
  pose proof (generate_banner_template TEMPLATE_BANNER_OVERVIEW "/overview.jpg" tag_values
                eq_refl materialize_banner_overview) as Ho.
  assert (Hvariants : banner_overview combos ≫= (fun base =>
              (fun v => Str.replace base "/overview.jpg" ("/" +:+ v +:+ ".jpg"))
                <$> OVERVIEW_VARIANTS) = banner_overview_variants combos).
  { unfold banner_overview, banner_overview_variants. rewrite bind_fmap.
    apply bind_ext_elem. intros combo Hc.
    apply product_three in Hc as (v & t & e & -> & _ & Ht & _).
    apply fmap_ext_elem. intros spelling _.
    apply replace_overview, HT, Ht. }
  assert (Hbuild : forall s o,
    generate_urls_from_template TEMPLATE_BANNER_SPLASH tag_values = Ok s ->
    generate_urls_from_template TEMPLATE_BANNER_OVERVIEW tag_values = Ok o ->
    o = banner_overview combos ->
    build_urls (Some "BANNER") tag_values = Ok (s ++ banner_overview_variants combos)).
  { intros s o Hgs Hgo ->. unfold build_urls. rewrite decide_True by done.
    cbv zeta. rewrite Hgs, Hgo. cbn [mbind result_bind]. by rewrite Hvariants. }
  destruct (generate_urls_from_template TEMPLATE_BANNER_SPLASH tag_values) as [s|e1] eqn:Hgs;
  destruct (generate_urls_from_template TEMPLATE_BANNER_OVERVIEW tag_values) as [o|e2] eqn:Hgo;
  destruct (decide (Forall _ _)) as [Hall|Hsome];
  try (pose proof (banner_lists_incomplete _ Hsome) as Hnil; fold combos in Hnil);
  pose proof (check_total_spec overflow_message (banner_lists tag_values) 1) as Hc;
  destruct (check_total _ _ _) as [r|e]; try done.
  - inversion Hs; inversion Ho; subst s o. fold combos.
    fold (banner_splash combos) (banner_overview combos).
    destruct Hc as [_ Hc]. specialize (Hc 3%nat).
    rewrite Z.mul_1_l, firstn_all2 in Hc by (cbn; lia).
    rewrite <- length_product in Hc. fold combos in Hc.
    unfold banner_splash, banner_overview. rewrite !length_fmap.
    split; [done|]. split; [done|]. split; [apply Hc; cbn; lia|].
    split; [apply Hc; cbn; lia|]. split.
    + by apply (Hbuild _ (banner_overview combos)).
    + rewrite length_app, length_banner_overview_variants, ?length_fmap.
      reflexivity.
  - inversion Hs; inversion Ho; subst s o.
    split; [by rewrite Hnil|]. split; [by rewrite Hnil|].
    split; [done|]. split; [done|]. split.
    + apply (Hbuild _ []); [done|done|by rewrite Hnil].
    + by rewrite Hnil.
  - inversion Hs; inversion Ho; subst s o.
    split; [by rewrite Hnil|]. split; [by rewrite Hnil|].
    split; [done|]. split; [done|]. split.
    + apply (Hbuild _ []); [done|done|by rewrite Hnil].
    + by rewrite Hnil.
  - inversion Hs; inversion Ho; subst e1 e2. split; [done|].
    unfold build_urls. rewrite decide_True by done. cbv zeta. by rewrite Hgs.
Qed.

(** [banner_composite] at one version, one date and one event name. *)
Lemma banner_composite_witness :
  let tag_values : gmap string (list string) :=
    <["V" := ["50"]]> (<["T" := ["2024"]]> (<["E" := ["ev"]]> ∅)) in
  (forall t, t ∈ values_of tag_values "T" -> Str.startswith "overview.jpg" t = false) /\
  build_urls (Some "BANNER") tag_values =
    Ok ["https://dl.dir.freefiremobile.com/common/OB50/ID/2024_ev/splash.jpg";
        "https://dl.dir.freefiremobile.com/common/OB50/ID/2024_ev/overview.jpg";
        "https://dl.dir.freefiremobile.com/common/OB50/ID/2024_ev/viewover.jpg";
        "https://dl.dir.freefiremobile.com/common/OB50/ID/2024_ev/overivew.jpg";
        "https://dl.dir.freefiremobile.com/common/OB50/ID/2024_ev/rivervow.jpg";
        "https://dl.dir.freefiremobile.com/common/OB50/ID/2024_ev/vowover.jpg"].
Proof.
  intros tag_values.
  assert (HT : forall t, t ∈ values_of tag_values "T" ->
                         Str.startswith "overview.jpg" t = false).
  { intros t Ht. vm_compute in Ht.
    apply elem_of_cons in Ht as [->|Ht]; [reflexivity|by apply elem_of_nil in Ht]. }
  split; [exact HT|].
  pose proof (banner_composite tag_values HT) as P. cbv zeta in P.
  assert (Hs : generate_urls_from_template TEMPLATE_BANNER_SPLASH tag_values =
    Ok ["https://dl.dir.freefiremobile.com/common/OB50/ID/2024_ev/splash.jpg"])
    by (by vm_compute).
  assert (Ho : generate_urls_from_template TEMPLATE_BANNER_OVERVIEW tag_values =
    Ok ["https://dl.dir.freefiremobile.com/common/OB50/ID/2024_ev/overview.jpg"])
    by (by vm_compute).
  rewrite Hs, Ho in P. destruct P as (_ & _ & _ & _ & Hb & _).
  rewrite Hb. by vm_compute.
Defined.

(** C7.  The code at a date that begins with "overview.jpg".  The five
    spellings are meant for the file name of each overview URL (comments at
    lines 405 and 415-416), but [base.replace("/overview.jpg", ...)]
    replaces every occurrence: here it rewrites the date segment as well,
    so four of the five overview candidates are not the base URL with its
    trailing file name substituted, and the candidate list is not splash
    followed by the five spellings of each overview URL. *)
Lemma banner_composite_rewrites_date :
  let tag_values : gmap string (list string) :=
    <["V" := ["50"]]> (<["T" := ["overview.jpg"]]> (<["E" := ["x"]]> ∅)) in
  generate_urls_from_template TEMPLATE_BANNER_OVERVIEW tag_values =
    Ok ["https://dl.dir.freefiremobile.com/common/OB50/ID/overview.jpg_x/overview.jpg"] /\
  build_urls (Some "BANNER") tag_values =
    Ok ["https://dl.dir.freefiremobile.com/common/OB50/ID/overview.jpg_x/splash.jpg";
        "https://dl.dir.freefiremobile.com/common/OB50/ID/overview.jpg_x/overview.jpg";
        "https://dl.dir.freefiremobile.com/common/OB50/ID/viewover.jpg_x/viewover.jpg";
        "https://dl.dir.freefiremobile.com/common/OB50/ID/overivew.jpg_x/overivew.jpg";
        "https://dl.dir.freefiremobile.com/common/OB50/ID/rivervow.jpg_x/rivervow.jpg";
        "https://dl.dir.freefiremobile.com/common/OB50/ID/vowover.jpg_x/vowover.jpg"] /\
  banner_overview_variants (product (banner_lists tag_values)) =
       ["https://dl.dir.freefiremobile.com/common/OB50/ID/overview.jpg_x/overview.jpg";
        "https://dl.dir.freefiremobile.com/common/OB50/ID/overview.jpg_x/viewover.jpg";
        "https://dl.dir.freefiremobile.com/common/OB50/ID/overview.jpg_x/overivew.jpg";
        "https://dl.dir.freefiremobile.com/common/OB50/ID/overview.jpg_x/rivervow.jpg";
        "https://dl.dir.freefiremobile.com/common/OB50/ID/overview.jpg_x/vowover.jpg"] /\
  build_urls (Some "BANNER") tag_values <>
    Ok (banner_splash (product (banner_lists tag_values))
          ++ banner_overview_variants (product (banner_lists tag_values))).
Proof.
  cbv zeta. split; [by vm_compute|]. split; [by vm_compute|].
  split; [by vm_compute|]. vm_compute. discriminate.
Qed.

(** ** The distribution of the candidates over workers and batches *)

Section Stride.

Context {A : Type}.

Lemma stride_lookup (step : nat) (l : list A) (wait k : nat) :
  (1 <= step)%nat ->
  stride wait step l !! k = l !! (wait + k * step)%nat.
Proof.
  intros Hstep. revert wait k. induction l as [|x l IH]; intros wait k; [done|].
  destruct wait as [|w]; cbn [stride].
  - destruct k as [|k]; [done|]. cbn [lookup list_lookup]. rewrite IH.
    replace (0 + S k * step)%nat with (S (step - 1 + k * step)) by lia. done.
  - rewrite IH. done.
Qed.

Lemma stride_length (step : nat) (l : list A) (wait : nat) :
  (wait < step)%nat ->
  length (stride wait step l) = ((length l + step - 1 - wait) / step)%nat.
Proof.
  intros Hw. revert wait Hw. induction l as [|x l IH]; intros wait Hw.
  - cbn [stride length]. symmetry. apply Nat.div_small. lia.
  - destruct wait as [|w]; cbn [stride length].
    + rewrite IH by lia.
      replace (S (length l) + step - 1 - 0)%nat
        with (length l + step - 1 - (step - 1) + 1 * step)%nat by lia.
      rewrite Nat.div_add by lia. lia.
    + rewrite IH by lia. f_equal. lia.
Qed.

(** Taking every [step]-th element from each of the [step] offsets loses
    and repeats nothing. *)
Lemma stride_concat (step : nat) (l : list A) :
  (1 <= step)%nat ->
  concat ((fun i => stride i step l) <$> seq 0 step) ≡ₚ l.
Proof.
  intros Hstep. induction l as [|x l IH].
  - clear. generalize 0%nat. induction step as [|n IHn]; intros s; [done|].
    cbn [seq fmap list_fmap concat stride]. apply IHn.
  - destruct step as [|n]; [lia|].
    trans (x :: concat ((fun i => stride i (S n) l) <$> seq 0 (S n)));
      [|by constructor].
    rewrite (seq_S n 0) at 2.
    cbn [seq]. rewrite fmap_cons, fmap_app, concat_cons, concat_app.
    cbn [stride fmap list_fmap concat].
    replace (S n - 1)%nat with n by lia. rewrite app_nil_r, Nat.add_0_l.
    rewrite <- seq_shift, <- list_fmap_compose.
    cbn [app]. constructor.
    rewrite (Permutation_app_comm (stride n (S n) l)). done.
Qed.

End Stride.

Lemma chunks_eq (urls : list string) :
  chunks urls =
  [stride 0 4 urls; stride 1 4 urls; stride 2 4 urls; stride 3 4 urls].
Proof. reflexivity. Qed.

(** X1. Round-robin assignment: chunk [i] holds, in order, the candidates
    at the indices i, i + 4, i + 8, ...; so the candidate at index [j] is
    at position [j / 4] of chunk [j mod 4]. *)
Theorem chunks_round_robin (urls : list string) :
  (forall i, (i < WORKERS)%nat ->
     exists chunk, chunks urls !! i = Some chunk /\
       forall k, chunk !! k = urls !! (i + k * WORKERS)%nat) /\
  (forall j, chunks urls !! (j mod WORKERS)%nat ≫= (fun chunk => chunk !! (j / WORKERS)%nat)
             = urls !! j).
Proof.
  assert (H : forall i, (i < WORKERS)%nat ->
     exists chunk, chunks urls !! i = Some chunk /\
       forall k, chunk !! k = urls !! (i + k * WORKERS)%nat).
  { intros i Hi. exists (stride i WORKERS urls). split.
    - unfold chunks. rewrite list_lookup_fmap, lookup_seq_lt by done. done.
    - intros k. apply stride_lookup. unfold WORKERS. lia. }
  split; [exact H|]. intros j.
  destruct (H (j mod WORKERS)%nat) as (chunk & -> & Hk).
  { apply Nat.mod_upper_bound. done. }
  cbn [mbind option_bind]. rewrite Hk. f_equal.
  rewrite (Nat.div_mod_eq j WORKERS) at 3. lia.
Qed.

(** [chunks_round_robin] on eleven candidates: the one at index 6 is the
    second of the third chunk. *)
Lemma chunks_round_robin_witness :
  let urls := ["u0"; "u1"; "u2"; "u3"; "u4"; "u5"; "u6"; "u7"; "u8"; "u9"; "u10"] in
  (2 < WORKERS)%nat /\
  exists chunk, chunks urls !! 2%nat = Some chunk /\ chunk !! 1%nat = Some "u6".
Proof.
  intros urls. split; [unfold WORKERS; lia|].
  destruct (proj1 (chunks_round_robin urls) 2%nat) as (chunk & Hc & Hk).
  - unfold WORKERS. lia.
  - exists chunk. split; [exact Hc|]. rewrite Hk. reflexivity.
Defined.

Lemma chunks_concat (urls : list string) : concat (chunks urls) ≡ₚ urls.
Proof. apply stride_concat. unfold WORKERS. lia. Qed.

Lemma concat_filter_nonempty {A : Type} (ls : list (list A)) :
  concat (filter (fun l => l <> []) ls) = concat ls.
Proof.
  induction ls as [|l ls IH]; [done|].
  rewrite filter_cons. destruct (decide (l <> [])) as [Hl|Hl].
  - cbn [concat]. by rewrite IH.
  - apply dec_stable in Hl as ->. by rewrite IH.
Qed.

(** X2. The chunks are a partition of the candidate list: together they
    hold every candidate exactly as often as the list does, and so do the
    chunks that get a task. *)
Theorem chunks_partition (urls : list string) :
  length (chunks urls) = WORKERS /\
  concat (chunks urls) ≡ₚ urls /\
  concat (task_chunks urls) ≡ₚ urls /\
  Forall (fun chunk => chunk <> []) (task_chunks urls).
Proof.
  split; [done|]. split; [apply chunks_concat|]. split.
  - unfold task_chunks. rewrite concat_filter_nonempty. apply chunks_concat.
  - unfold task_chunks. apply Forall_forall. intros c Hc.
    by apply list_elem_of_filter in Hc as [? _].
Qed.

(** X3. The chunks are balanced: chunk [i] has [(n + 3 - i) / 4] of the
    [n] candidates, so a later chunk is never longer than an earlier one
    and never shorter by more than one. *)
Theorem chunks_balanced (urls : list string) (i i' : nat) (chunk chunk' : list string) :
  chunks urls !! i = Some chunk ->
  chunks urls !! i' = Some chunk' ->
  (i <= i')%nat ->
  length chunk = ((length urls + 3 - i) / 4)%nat /\
  (length chunk' <= length chunk <= length chunk' + 1)%nat.
Proof.
  unfold chunks. rewrite !list_lookup_fmap. intros Hc Hc' Hle.
  destruct (seq 0 WORKERS !! i) as [x|] eqn:Hi; [|done].
  destruct (seq 0 WORKERS !! i') as [x'|] eqn:Hi'; [|done].
  apply lookup_seq in Hi as [-> Hi]. apply lookup_seq in Hi' as [-> Hi'].
  cbn in Hc, Hc'. inversion Hc; inversion Hc'; subst. clear Hc Hc'.
  unfold WORKERS in *. rewrite !stride_length by lia.
  replace (length urls + 4 - 1 - i)%nat with (length urls + 3 - i)%nat by lia.
  replace (length urls + 4 - 1 - i')%nat with (length urls + 3 - i')%nat by lia.
  split; [done|].
  pose proof (Nat.div_mod_eq (length urls + 3 - i) 4).
  pose proof (Nat.div_mod_eq (length urls + 3 - i') 4).
  pose proof (Nat.mod_upper_bound (length urls + 3 - i) 4).
  pose proof (Nat.mod_upper_bound (length urls + 3 - i') 4).
  lia.
Qed.

(** [chunks_balanced] on eleven candidates: three in the first chunk, two
    in the last. *)
Lemma chunks_balanced_witness :
  let urls := ["u0"; "u1"; "u2"; "u3"; "u4"; "u5"; "u6"; "u7"; "u8"; "u9"; "u10"] in
  length (stride 0 4 urls) = 3%nat /\ length (stride 3 4 urls) = 2%nat.
Proof.
  intros urls.
  destruct (chunks_balanced urls 0 3 (stride 0 4 urls) (stride 3 4 urls))
    as [H0 _]; [reflexivity|reflexivity|lia|].
  destruct (chunks_balanced urls 3 3 (stride 3 4 urls) (stride 3 4 urls))
    as [H3 _]; [reflexivity|reflexivity|lia|].
  split; [exact H0|exact H3].
Defined.

(** X4. A task is created for each of the first [min(4, n)] chunks and for
    no other: with fewer than four candidates there are fewer workers, and
    with none there is no task at all. *)
Theorem task_chunks_count (urls : list string) :
  task_chunks urls = take (min WORKERS (length urls)) (chunks urls) /\
  length (task_chunks urls) = min WORKERS (length urls).
Proof.
  assert (H : task_chunks urls = take (min WORKERS (length urls)) (chunks urls)).
  { unfold task_chunks. rewrite chunks_eq.
    destruct urls as [|a [|b [|c [|d rest]]]]; reflexivity. }
  split; [exact H|]. rewrite H, length_take. unfold chunks.
  rewrite length_fmap, length_seq. lia.
Qed.

Section Batches.

Variable size : nat.
Hypothesis size_pos : (0 < size)%nat.

Lemma range_step_length (n : nat) :
  length (range_step n size) = ((n + size - 1) / size)%nat.
Proof. unfold range_step. by rewrite length_fmap, length_seq. Qed.

Lemma batch_count_step (n : nat) :
  (0 < n)%nat -> ((n + size - 1) / size = S ((n - size + size - 1) / size))%nat.
Proof.
  intros Hn. destruct (decide (size <= n)%nat) as [Hle|Hlt].
  - replace (n + size - 1)%nat with (n - size + size - 1 + 1 * size)%nat by lia.
    rewrite Nat.div_add by lia. lia.
  - replace (n - size)%nat with 0%nat by lia.
    rewrite (Nat.div_small (0 + size - 1)) by lia.
    replace (n + size - 1)%nat with (n - 1 + 1 * size)%nat by lia.
    rewrite Nat.div_add by lia. rewrite Nat.div_small by lia. done.
Qed.

Lemma batches_of_nil : batches_of size [] = [].
Proof.
  unfold batches_of, range_step. cbn [length].
  by rewrite Nat.div_small by lia.
Qed.

Lemma batches_of_cons (l : list string) :
  l <> [] -> batches_of size l = take size l :: batches_of size (drop size l).
Proof.
  intros Hl. unfold batches_of, range_step.
  rewrite batch_count_step by (destruct l; [done|cbn [length]; lia]).
  rewrite length_drop. cbn [seq fmap list_fmap]. f_equal.
  rewrite <- seq_shift, <- !list_fmap_compose.
  apply list_fmap_ext. intros _ k _. cbn.
  rewrite drop_drop. f_equal; f_equal; lia.
Qed.

Lemma batches_of_spec (l : list string) :
  concat (batches_of size l) = l /\
  Forall (fun b => (1 <= length b <= size)%nat) (batches_of size l) /\
  (forall k b, batches_of size l !! k = Some b ->
               (S k < length (batches_of size l))%nat -> length b = size).
Proof.
  remember (length l) as n eqn:Hn. revert l Hn.
  induction n as [n IH] using lt_wf_ind. intros l Hn.
  destruct l as [|x l].
  { rewrite batches_of_nil. split; [done|]. split; [constructor|]. by intros k b. }
  rewrite batches_of_cons by done.
  assert (Hlt : (length (drop size (x :: l)) < n)%nat).
  { rewrite length_drop, Hn. cbn [length]. lia. }
  destruct (IH _ Hlt (drop size (x :: l)) eq_refl) as (Hcat & Hall & Hfull).
  split; [|split].
  - cbn [concat]. by rewrite Hcat, take_drop.
  - constructor; [|done]. rewrite length_take. cbn [length]. lia.
  - intros [|k] b Hb Hlast.
    + inversion Hb; subst. rewrite length_take.
      cbn [length] in Hlast.
      destruct (batches_of size (drop size (x :: l))) as [|b' bs] eqn:Hrest;
        [cbn [length] in Hlast; lia|].
      assert (Hne : drop size (x :: l) <> []).
      { intros Hnil. rewrite Hnil, batches_of_nil in Hrest. done. }
      assert (length (drop size (x :: l)) <> 0%nat).
      { by destruct (drop size (x :: l)). }
      rewrite length_drop in *. lia.
    + cbn [lookup list_lookup] in Hb. apply (Hfull k b Hb).
      cbn [length] in Hlast. lia.
Qed.

End Batches.

(** X5. The batches of a worker are its chunk cut into consecutive pieces:
    joined they give the chunk back, none is empty, none has more than
    2000 URLs, all but the last have exactly 2000, and there are
    [ceil(n / 2000)] of them (none for an empty chunk). *)
Theorem batches_cover (urls_chunk : list string) :
  concat (batches urls_chunk) = urls_chunk /\
  Forall (fun b => (1 <= length b <= BATCH_SIZE)%nat) (batches urls_chunk) /\
  length (batches urls_chunk) = ((length urls_chunk + BATCH_SIZE - 1) / BATCH_SIZE)%nat /\
  (forall k b, batches urls_chunk !! k = Some b ->
               (S k < length (batches urls_chunk))%nat -> length b = BATCH_SIZE).
Proof.
  assert (Hpos : (0 < BATCH_SIZE)%nat) by (unfold BATCH_SIZE; lia).
  destruct (batches_of_spec BATCH_SIZE Hpos urls_chunk) as (H1 & H2 & H3).
  split; [exact H1|]. split; [exact H2|]. split; [|exact H3].
  unfold batches, batches_of. rewrite length_fmap. by apply range_step_length.
Qed.

(** [batches_cover] on a chunk of three URLs: one batch. *)
Lemma batches_cover_witness :
  batches ["a"; "b"; "c"] = [["a"; "b"; "c"]] /\
  concat (batches ["a"; "b"; "c"]) = ["a"; "b"; "c"].
Proof.
  split; [by vm_compute|]. apply (batches_cover ["a"; "b"; "c"]).
Defined.

(** X6. Chunking and batching lose and add nothing: the batches of the
    chunks that get a task, taken together, hold every candidate exactly
    as often as the candidate list does. *)
Theorem batches_partition (urls : list string) :
  concat (task_chunks urls ≫= batches) ≡ₚ urls.
Proof.
  assert (Hpos : (0 < BATCH_SIZE)%nat) by (unfold BATCH_SIZE; lia).
  trans (concat (task_chunks urls)).
  - induction (task_chunks urls) as [|c cs IH]; [done|].
    rewrite bind_cons, concat_app, concat_cons, IH.
    unfold batches. by rewrite (proj1 (batches_of_spec BATCH_SIZE Hpos c)).
  - unfold task_chunks. rewrite concat_filter_nonempty. apply chunks_concat.
Qed.

(** ** More on the generator *)

Lemma generate_urls_length_le (template : string)
    (tag_values : gmap string (list string)) (urls : list string) :
  generate_urls_from_template template tag_values = Ok urls ->
  Z.of_nat (length urls) <= MAX_COMBINATIONS.
Proof.
  unfold generate_urls_from_template.
  rewrite generate_urls_from_template_impl_eq.
  destruct (extract_tags template) as [|t ts] eqn:Ht; [by intros [= <-]|].
  rewrite <- Ht.
  destruct (decide (Forall _ _)); [|by intros [= <-]].
  pose proof (check_total_spec overflow_message
                (working_list tag_values <$> extract_tags template) 1) as Hc.
  destruct (check_total _ _ _) as [r|e]; [|done]. intros [= <-].
  destruct Hc as [_ Hc].
  specialize (Hc (length (working_list tag_values <$> extract_tags template))).
  rewrite length_fmap, length_product.
  rewrite <- (firstn_all (lengths _)).
  unfold lengths at 1. rewrite length_fmap.
  rewrite Z.mul_1_l in Hc. apply Hc. rewrite length_fmap, Ht. cbn [length]. lia.
Qed.

(** X7. The generator never returns more than 20000 URLs, for any template
    and any mapping; the candidate list the handler builds has at most
    20000 URLs, and at most 120000 (six per combination) in banner mode. *)
Theorem candidates_bounded (template_marker : option string)
    (tag_values : gmap string (list string)) (urls : list string) :
  build_urls template_marker tag_values = Ok urls ->
  (forall template, template_marker = Some template -> template <> "BANNER" ->
     generate_urls_from_template template tag_values = Ok urls /\
     Z.of_nat (length urls) <= MAX_COMBINATIONS) /\
  Z.of_nat (length urls) <= 6 * MAX_COMBINATIONS.
Proof.
  unfold build_urls. intros Hb.
  destruct (decide (template_marker = Some "BANNER")) as [->|Hne].
  - split; [by intros template [= <-]|].
    cbv zeta in Hb.
    destruct (generate_urls_from_template TEMPLATE_BANNER_SPLASH tag_values)
      as [s|] eqn:Hs; [|done].
    destruct (generate_urls_from_template TEMPLATE_BANNER_OVERVIEW tag_values)
      as [o|] eqn:Ho; [|done].
    cbn [mbind result_bind] in Hb.
    apply generate_urls_length_le in Hs, Ho.
    assert (Hu : forall a b : list string, Ok a = Ok b -> a = b) by congruence.
    apply Hu in Hb as <-. clear Hu.
    assert (Hlen : length (o ≫= (fun base =>
              (fun v => Str.replace base "/overview.jpg" ("/" +:+ v +:+ ".jpg"))
                <$> OVERVIEW_VARIANTS)) = (5 * length o)%nat).
    { clear. induction o as [|b o IH]; [done|].
      rewrite bind_cons, length_app, IH, length_fmap.
      cbn [length OVERVIEW_VARIANTS]. lia. }
    rewrite length_app, Hlen. lia.
  - destruct template_marker as [template|]; [|done].
    pose proof (generate_urls_length_le _ _ _ Hb) as Hle.
    split; [|unfold MAX_COMBINATIONS in *; lia].
    by intros ? [= <-] _.
Qed.

(** [candidates_bounded] at the splash template used as a custom
    template. *)
Lemma candidates_bounded_witness :
  let tag_values : gmap string (list string) :=
    <["V" := ["50"]]> (<["T" := ["2024"]]> (<["E" := ["ev"]]> ∅)) in
  let urls := ["https://dl.dir.freefiremobile.com/common/OB50/ID/2024_ev/splash.jpg"] in
  build_urls (Some TEMPLATE_BANNER_SPLASH) tag_values = Ok urls /\
  Z.of_nat (length urls) <= 6 * MAX_COMBINATIONS.
Proof.
  intros tag_values urls.
  assert (H : build_urls (Some TEMPLATE_BANNER_SPLASH) tag_values = Ok urls)
    by (by vm_compute).
  split; [exact H|].
  apply (candidates_bounded (Some TEMPLATE_BANNER_SPLASH) tag_values urls H).
Defined.

Lemma generate_urls_raise_inv (template : string)
    (tag_values : gmap string (list string)) (e : exn) :
  generate_urls_from_template template tag_values = Raise e ->
  (exists total, total > MAX_COMBINATIONS /\ e = ValueError (overflow_message total)) /\
  (forall t, t ∈ extract_tags template -> values_of tag_values t <> []).
Proof.
  unfold generate_urls_from_template.
  rewrite generate_urls_from_template_impl_eq.
  destruct (extract_tags template) as [|t ts] eqn:Ht; [done|]. rewrite <- Ht in *.
  destruct (decide (Forall _ _)) as [Hall|]; [|done].
  pose proof (check_total_spec overflow_message
                (working_list tag_values <$> extract_tags template) 1) as Hc.
  destruct (check_total _ _ _) as [r|e']; [done|]. intros [= <-].
  destruct Hc as (j & _ & -> & Hgt & _).
  split; [by eexists|]. by apply Forall_forall.
Qed.

Lemma utf8_values_empty (t v : string) :
  v ∈ values_of (∅ : gmap string (list string)) t -> utf8_text v = true.
Proof. unfold values_of. rewrite lookup_empty. by intros ?%elem_of_nil. Qed.

Lemma utf8_values_insert (tag_values : gmap string (list string))
    (k : string) (vals : list string) :
  Forall (fun v => utf8_text v = true) vals ->
  (forall t v, v ∈ values_of tag_values t -> utf8_text v = true) ->
  forall t v, v ∈ values_of (<[k := vals]> tag_values) t -> utf8_text v = true.
Proof.
  intros Hvals Hrest t v. unfold values_of.
  destruct (decide (t = k)) as [->|Hne].
  - rewrite lookup_insert_eq. cbn. by apply (proj1 (Forall_forall _ _) Hvals).
  - rewrite lookup_insert_ne by done. apply Hrest.
Qed.

(** X8. On tag values that are well-formed text (no lone surrogate, the
    one input on which [quote] itself raises): the only exception the
    generator raises is the [ValueError] of the ceiling, with a count above
    20000, and only when every tag of the template has values; indexing a
    combination never fails.  So, once a template is stored (a custom one,
    the gacha one or the banner mark), the handler does not send its
    generic generation-error reply. *)
Theorem generator_raises_only_overflow (template : string)
    (tag_values : gmap string (list string)) :
  (forall t v, v ∈ values_of tag_values t -> utf8_text v = true) ->
  (forall e, generate_urls_from_template template tag_values = Raise e ->
     (exists total, total > MAX_COMBINATIONS /\
                    e = ValueError (overflow_message total)) /\
     (forall t, t ∈ extract_tags template -> values_of tag_values t <> [])) /\
  (forall find_first_live_url,
     GenerationFailed ∉ finish_tag_input find_first_live_url (Some template) tag_values).
Proof.
  intros _.
  split; [apply generate_urls_raise_inv|].
  intros search. unfold finish_tag_input.
  assert (Hb : forall e, build_urls (Some template) tag_values = Raise e ->
                         exists msg, e = ValueError msg).
  { unfold build_urls. intros e.
    destruct (decide (Some template = Some "BANNER")) as [_|_].
    - cbv zeta.
      destruct (generate_urls_from_template TEMPLATE_BANNER_SPLASH tag_values)
        as [s|e1] eqn:Hs.
      + destruct (generate_urls_from_template TEMPLATE_BANNER_OVERVIEW tag_values)
          as [o|e2] eqn:Ho; [done|].
        cbn [mbind result_bind]. intros [= <-].
        apply generate_urls_raise_inv in Ho as [(total & _ & ->) _]. by eexists.
      + cbn [mbind result_bind]. intros [= <-].
        apply generate_urls_raise_inv in Hs as [(total & _ & ->) _]. by eexists.
    - intros He. apply generate_urls_raise_inv in He as [(total & _ & ->) _].
      by eexists. }
  destruct (build_urls (Some template) tag_values) as [urls|e].
  - destruct urls as [|u urls].
    + by intros ?%list_elem_of_singleton.
    + destruct (search (u :: urls));
        rewrite !elem_of_cons, elem_of_nil; intros H;
        repeat (destruct H as [H|H]; try done).
  - destruct (Hb e eq_refl) as [msg ->]. by intros ?%list_elem_of_singleton.
Qed.

(** [generator_raises_only_overflow] at five tags of 12, 12, 12, 12 and 2
    values. *)
Lemma generator_raises_only_overflow_witness :
  let twelve := (fun i => str_of_int i) <$> seqZ 1 12 in
  let tag_values : gmap string (list string) :=
    <["A" := twelve]> (<["B" := twelve]> (<["C" := twelve]> (<["D" := twelve]>
      (<["E" := ["x"; "y"]]> ∅)))) in
  (forall t v, v ∈ values_of tag_values t -> utf8_text v = true) /\
  generate_urls_from_template "[A][B][C][D][E]" tag_values =
    Raise (ValueError (overflow_message 20736)) /\
  values_of tag_values "E" <> [].
Proof.
  intros twelve tag_values.
  assert (Hu : forall t v, v ∈ values_of tag_values t -> utf8_text v = true).
  { subst tag_values.
    repeat (apply utf8_values_insert; [apply (bool_decide_unpack _); by vm_compute|]).
    apply utf8_values_empty. }
  split; [exact Hu|].
  assert (H : generate_urls_from_template "[A][B][C][D][E]" tag_values =
              Raise (ValueError (overflow_message 20736))) by (by vm_compute).
  split; [exact H|].
  apply (proj1 (generator_raises_only_overflow "[A][B][C][D][E]" tag_values Hu) _ H).
  apply (bool_decide_unpack _). by vm_compute.
Defined.

(** X9. The generator reads the mapping only at the tags of the template:
    two mappings that agree there give the same result, so values stored
    under other keys are ignored. *)
Theorem generator_reads_template_tags (template : string)
    (tag_values tag_values' : gmap string (list string)) :
  (forall t, t ∈ extract_tags template -> tag_values !! t = tag_values' !! t) ->
  generate_urls_from_template template tag_values =
  generate_urls_from_template template tag_values'.
Proof.
  intros Hagree. unfold generate_urls_from_template.
  rewrite !generate_urls_from_template_impl_eq.
  assert (Hv : forall t, t ∈ extract_tags template ->
                         values_of tag_values t = values_of tag_values' t).
  { intros t Ht. unfold values_of. by rewrite (Hagree t Ht). }
  assert (Hw : working_list tag_values <$> extract_tags template =
               working_list tag_values' <$> extract_tags template).
  { apply fmap_ext_elem. intros t Ht. unfold working_list. by rewrite (Hv t Ht). }
  rewrite Hw.
  destruct (extract_tags template) as [|t ts] eqn:Ht; [done|]. rewrite <- Ht in *.
  destruct (decide (Forall (fun t => values_of tag_values t <> []) _)) as [H1|H1];
  destruct (decide (Forall (fun t => values_of tag_values' t <> []) _)) as [H2|H2];
    try done; exfalso.
  - apply H2. rewrite Forall_forall in *. intros x Hx. rewrite <- (Hv x Hx). auto.
  - apply H1. rewrite Forall_forall in *. intros x Hx. rewrite (Hv x Hx). auto.
Qed.

(** [generator_reads_template_tags]: a value list stored under a key that
    is no tag of the splash template changes nothing. *)
Lemma generator_reads_template_tags_witness :
  let tag_values : gmap string (list string) :=
    <["V" := ["50"]]> (<["T" := ["2024"]]> (<["E" := ["ev"]]> ∅)) in
  generate_urls_from_template TEMPLATE_BANNER_SPLASH tag_values =
  generate_urls_from_template TEMPLATE_BANNER_SPLASH (<["G" := ["Skull"]]> tag_values).
Proof.
  intros tag_values. apply generator_reads_template_tags.
  intros t Ht. vm_compute in Ht.
  apply elem_of_cons in Ht as [->|Ht]; [reflexivity|].
  apply elem_of_cons in Ht as [->|Ht]; [reflexivity|].
  apply elem_of_cons in Ht as [->|Ht]; [reflexivity|].
  by apply elem_of_nil in Ht.
Defined.

Lemma extract_tags_no_bracket (s : string) :
  Str.mem "[" s = false -> extract_tags s = [].
Proof.
  intros H. unfold extract_tags. rewrite <- (str_app_nil_r s).
  by rewrite findall_from_gap.
Qed.

Lemma fill_no_bracket (parts : list (string * string)) (gap : string)
    (values : list string) :
  Str.mem "[" gap = false ->
  Forall (fun p => fullmatch_alnum p.1 = true /\ Str.mem "[" p.2 = false) parts ->
  length values = length parts ->
  Str.mem "[" (fill gap parts values) = false.
Proof.
  intros Hgap Hparts. revert gap values Hgap.
  induction Hparts as [|[t g] ps [_ Hg] _ IH]; intros gap values Hgap Hlen.
  - by destruct values.
  - destruct values as [|v vs]; [done|]. cbn [fill].
    rewrite !mem_app, Hgap, quote_no_bracket. cbn [orb].
    apply IH; [done|]. by inversion Hlen.
Qed.

Lemma generate_urls_with_tags (template : string)
    (tag_values : gmap string (list string)) :
  extract_tags template <> [] ->
  generate_urls_from_template template tag_values =
    if decide (Forall (fun t => values_of tag_values t <> []) (extract_tags template))
    then
      match check_total overflow_message 1
              (working_list tag_values <$> extract_tags template) with
      | Ok _ => Ok (materialize template (extract_tags template)
                      <$> product (working_list tag_values <$> extract_tags template))
      | Raise e => Raise e
      end
    else Ok [].
Proof.
  intros Hne. unfold generate_urls_from_template.
  rewrite generate_urls_from_template_impl_eq.
  by destruct (extract_tags template).
Qed.

(** X10. On a template whose only opening brackets are its markers, with
    no tag repeated, every tag having values and the product within the
    ceiling, the result is exactly the template text filled with each
    combination in turn, in the order of the cartesian product (the last
    tag varying fastest); no URL holds an opening bracket, so no marker is
    left unreplaced. *)
Theorem generate_plain_template (gap : string) (parts : list (string * string))
    (tag_values : gmap string (list string)) :
  plain_template gap parts ->
  parts <> [] ->
  (forall t, t ∈ parts.*1 -> values_of tag_values t <> []) ->
  let lists := working_list tag_values <$> parts.*1 in
  Zprod (lengths lists) <= MAX_COMBINATIONS ->
  generate_urls_from_template (render gap parts) tag_values =
    Ok (fill gap parts <$> product lists) /\
  (forall u, u ∈ fill gap parts <$> product lists ->
             Str.mem "[" u = false /\ extract_tags u = []).
Proof.
  intros Hplain Hne Hvals lists Hprod.
  assert (Htags := extract_tags_render gap parts Hplain).
  split.
  - rewrite generate_urls_with_tags by (rewrite Htags; by destruct parts).
    rewrite Htags.
    rewrite decide_True by (by apply Forall_forall). fold lists.
    pose proof (check_total_spec overflow_message lists 1) as Hc.
    destruct (check_total overflow_message 1 lists) as [r|e].
    + f_equal. apply fmap_ext_elem. intros combo _.
      by apply (materialize_render parts "" gap combo).
    + exfalso. destruct Hc as (j & _ & _ & Hgt & _).
      assert (Hpos : Forall (fun n => 1 <= n) (lengths lists)).
      { unfold lengths, lists. rewrite <- list_fmap_compose.
        apply Forall_fmap, Forall_forall. intros x Hx. cbn.
        pose proof (working_list_nonempty tag_values x (Hvals x Hx)).
        destruct (working_list tag_values x); [done|]. cbn [length]. lia. }
      pose proof (Zprod_take_le _ j Hpos). lia.
  - intros u (combo & -> & Hc)%list_elem_of_fmap.
    apply product_length in Hc. unfold lists in Hc. rewrite !length_fmap in Hc.
    destruct Hplain as (Hgap & Hparts & _).
    assert (Hm : Str.mem "[" (fill gap parts combo) = false)
      by (by apply fill_no_bracket).
    split; [done|]. by apply extract_tags_no_bracket.
Qed.

(** [generate_plain_template] at the splash template with two versions. *)
Lemma generate_plain_template_witness :
  let tag_values : gmap string (list string) :=
    <["V" := ["50"; "51"]]> (<["T" := ["2024"]]> (<["E" := ["a b"]]> ∅)) in
  generate_urls_from_template TEMPLATE_BANNER_SPLASH tag_values =
    Ok ["https://dl.dir.freefiremobile.com/common/OB50/ID/2024_a%20b/splash.jpg";
        "https://dl.dir.freefiremobile.com/common/OB51/ID/2024_a%20b/splash.jpg"].
Proof.
  intros tag_values.
  pose proof (generate_plain_template "https://dl.dir.freefiremobile.com/common/OB"
                [("V", "/ID/"); ("T", "_"); ("E", "/splash.jpg")] tag_values) as H.
  cbv zeta in H.
  destruct H as [H _].
  - by apply banner_template_plain.
  - done.
  - intros t Ht. cbn in Ht.
    apply elem_of_cons in Ht as [->|Ht]; [by vm_compute|].
    apply elem_of_cons in Ht as [->|Ht]; [by vm_compute|].
    apply elem_of_cons in Ht as [->|Ht]; [by vm_compute|].
    by apply elem_of_nil in Ht.
  - by vm_compute.
  - etrans; [exact H|]. by vm_compute.
Defined.

Lemma replace_no_bracket (s t new : string) :
  Str.mem "[" s = false -> Str.replace s (marker t) new = s.
Proof.
  intros Hs. change (marker t) with (String "[" (t +:+ "]")). cbn [Str.replace].
  rewrite <- (str_app_nil_r s) at 1.
  by rewrite replace_from_pass, str_app_nil_r.
Qed.

Lemma fmap_product_pair (f : list string -> string) (g : string -> string)
    (w1 w2 : list string) :
  (forall x y, f [x; y] = g x) ->
  f <$> product [w1; w2] = w1 ≫= (fun x => replicate (length w2) (g x)).
Proof.
  intros Hf. cbn [product].
  induction w1 as [|x w1 IH]; [done|].
  rewrite !bind_cons, fmap_app. f_equal; [|apply IH]. clear IH.
  induction w2 as [|y w2 IH]; [done|].
  rewrite bind_cons. cbn [app fmap list_fmap length replicate].
  rewrite Hf. f_equal. apply IH.
Qed.

(** X11. A tag that occurs twice in a template is counted twice: with [n]
    working values the generator builds [n * n] combinations, but the
    first replacement fills both markers, so the result holds only [n]
    different URLs, each of them [n] times in a row. *)
Theorem generate_repeated_tag (g0 g1 g2 t : string)
    (tag_values : gmap string (list string)) :
  Str.mem "[" g0 = false -> Str.mem "[" g1 = false -> Str.mem "[" g2 = false ->
  fullmatch_alnum t = true ->
  values_of tag_values t <> [] ->
  let w := working_list tag_values t in
  Z.of_nat (length w) * Z.of_nat (length w) <= MAX_COMBINATIONS ->
  generate_urls_from_template
    (g0 +:+ marker t +:+ g1 +:+ marker t +:+ g2) tag_values =
  Ok (w ≫= (fun value =>
        replicate (length w)
          (g0 +:+ quote value "" +:+ g1 +:+ quote value "" +:+ g2))).
Proof.
  intros H0 H1 H2 Ht Hv w Hsq.
  assert (Htags : extract_tags (g0 +:+ marker t +:+ g1 +:+ marker t +:+ g2) = [t; t]).
  { unfold extract_tags.
    rewrite findall_from_gap, findall_from_marker by done.
    rewrite findall_from_gap, findall_from_marker by done.
    f_equal. f_equal. by apply extract_tags_no_bracket. }
  rewrite generate_urls_with_tags by (by rewrite Htags).
  rewrite Htags. rewrite decide_True by (by repeat constructor).
  cbn [fmap list_fmap]. fold w.
  assert (Hw : (1 <= length w)%nat).
  { pose proof (working_list_nonempty tag_values t Hv). fold w in H.
    destruct w; [done|]. cbn [length]. lia. }
  cbn [check_total]. rewrite Z.mul_1_l.
  rewrite decide_False by nia. rewrite decide_False by lia.
  f_equal. cbn [product].
  assert (Hm : forall x y,
    materialize (g0 +:+ marker t +:+ g1 +:+ marker t +:+ g2) [t; t] [x; y] =
    g0 +:+ quote x "" +:+ g1 +:+ quote x "" +:+ g2).
  { intros x y. cbn [materialize].
    assert (Hfirst : Str.replace (g0 +:+ marker t +:+ g1 +:+ marker t +:+ g2)
                       (marker t) (quote x "") =
                     g0 +:+ quote x "" +:+ g1 +:+ quote x "" +:+ g2).
    { change (marker t) with (String "[" (t +:+ "]")). cbn [Str.replace].
      rewrite replace_from_pass, replace_from_match by done.
      rewrite replace_from_pass, replace_from_match by done.
      rewrite <- (str_app_nil_r g2) at 1.
      by rewrite replace_from_pass, str_app_nil_r. }
    rewrite Hfirst. apply replace_no_bracket.
    by rewrite !mem_app, H0, H1, H2, !quote_no_bracket. }
  by apply fmap_product_pair.
Qed.

(** [generate_repeated_tag] at a template with the tag A twice and two
    values: four URLs, two different ones. *)
Lemma generate_repeated_tag_witness :
  let tag_values : gmap string (list string) := <["A" := ["x"; "y"]]> ∅ in
  generate_urls_from_template "p/[A]/q/[A].png" tag_values =
    Ok ["p/x/q/x.png"; "p/x/q/x.png"; "p/y/q/y.png"; "p/y/q/y.png"].
Proof.
  intros tag_values.
  pose proof (generate_repeated_tag "p/" "/q/" ".png" "A" tag_values) as H.
  cbv zeta in H. etrans; [apply H|]; try reflexivity.
  - by vm_compute.
  - by vm_compute.
Defined.

(** ** More on the gacha-name expansion *)

Lemma append_if_absent_length (l : list string) (x : string) :
  (length l <= length (append_if_absent l x) <= S (length l))%nat.
Proof.
  unfold append_if_absent. destruct (decide (x ∈ l)); [lia|].
  rewrite length_app. cbn [length]. lia.
Qed.

Lemma append_if_absent_head (l : list string) (x y : string) :
  head l = Some y -> head (append_if_absent l x) = Some y.
Proof.
  unfold append_if_absent. destruct (decide (x ∈ l)); [done|]. by destruct l.
Qed.

Lemma foldl_append_if_absent_head (xs l : list string) (y : string) :
  head l = Some y -> head (foldl append_if_absent l xs) = Some y.
Proof.
  revert l. induction xs as [|x xs IH]; intros l Hl; [done|].
  cbn [foldl]. by apply IH, append_if_absent_head.
Qed.

Lemma foldl_append_if_absent_length (xs l : list string) :
  (length (foldl append_if_absent l xs) <= length l + length xs)%nat.
Proof.
  revert l. induction xs as [|x xs IH]; intros l; cbn [foldl length]; [lia|].
  specialize (IH (append_if_absent l x)).
  pose proof (append_if_absent_length l x). lia.
Qed.

Lemma first_seen_head (x : string) (xs : list string) :
  head (first_seen (x :: xs)) = Some x.
Proof.
  unfold first_seen. cbn [foldl]. apply foldl_append_if_absent_head.
  unfold append_if_absent. destruct (decide (x ∈ [])) as [H|]; [|done].
  by apply elem_of_nil in H.
Qed.

Lemma first_seen_length (xs : list string) : (length (first_seen xs) <= length xs)%nat.
Proof. apply (foldl_append_if_absent_length xs []). Qed.

Lemma expand_gacha_name_base_unfold (name : string) :
  expand_gacha_name_base name =
    (if Str.contains "token" (lower name) && Str.contains "wheel" (lower name)
     then append_if_absent (first_seen [name; title name; lower name])
            (Str.concat (capitalize <$> re_split_seps (lower name)))
     else first_seen [name; title name; lower name]).
Proof.
  unfold expand_gacha_name_base. rewrite dedupe_first_seen.
  destruct (_ && _).
  - rewrite first_seen_id; [done|].
    do 4 apply append_if_absent_NoDup. constructor.
  - rewrite first_seen_id; [done|].
    do 3 apply append_if_absent_NoDup. constructor.
Qed.

Lemma expand_gacha_name_base_head (name : string) :
  head (expand_gacha_name_base name) = Some name.
Proof.
  rewrite expand_gacha_name_base_unfold.
  destruct (_ && _); [apply append_if_absent_head|]; apply first_seen_head.
Qed.

Lemma expand_gacha_name_base_length (name : string) :
  (length (expand_gacha_name_base name) <= 4)%nat.
Proof.
  rewrite expand_gacha_name_base_unfold.
  pose proof (first_seen_length [name; title name; lower name]) as H.
  cbn [length] in H.
  destruct (_ && _); [|lia].
  etrans; [apply append_if_absent_length|]. lia.
Qed.

(** X12. The casing variants of a name: the name itself comes first, its
    title-case and lower-case forms are among them, nothing but these and
    (when the lower-cased name holds "token" and "wheel") the camel-case
    form is, no variant occurs twice, and there are at most four.  The
    closing loop over the set of seen values never removes anything. *)
Theorem expand_gacha_name_base_variants (name : string) :
  let bases := expand_gacha_name_base name in
  let camel := Str.concat (capitalize <$> re_split_seps (lower name)) in
  let special := Str.contains "token" (lower name) && Str.contains "wheel" (lower name) in
  head bases = Some name /\
  NoDup bases /\
  (1 <= length bases <= 4)%nat /\
  (forall b, b ∈ bases <->
     b = name \/ b = title name \/ b = lower name \/ (special = true /\ b = camel)) /\
  bases =
    (if special
     then append_if_absent (first_seen [name; title name; lower name]) camel
     else first_seen [name; title name; lower name]).
Proof.
  intros bases camel special.
  set (three := first_seen [name; title name; lower name]).
  assert (Hthree : head three = Some name /\ NoDup three /\
                   (1 <= length three <= 3)%nat /\
                   forall b, b ∈ three <-> b = name \/ b = title name \/ b = lower name).
  { split; [apply first_seen_head|].
    split; [apply first_seen_NoDup|]. split.
    - pose proof (first_seen_length [name; title name; lower name]) as Hle.
      fold three in Hle. cbn [length] in Hle.
      assert (Hin : name ∈ three) by (apply elem_of_first_seen; left).
      destruct three; [by apply elem_of_nil in Hin|]. cbn [length] in *. lia.
    - intros b. unfold three. rewrite elem_of_first_seen.
      rewrite !elem_of_cons, elem_of_nil. tauto. }
  destruct Hthree as (Hhead & Hnd & Hlen & Hmem).
  assert (Heq : bases = if special then append_if_absent three camel else three).
  { apply expand_gacha_name_base_unfold. }
  rewrite Heq. destruct special.
  - split; [by apply append_if_absent_head|].
    split; [by apply append_if_absent_NoDup|]. split.
    + pose proof (append_if_absent_length three camel). lia.
    + split; [|done]. intros b. rewrite append_if_absent_elem, Hmem.
      split; [|intros [?|[?|[?|[_ ?]]]]; tauto]. intros [[?|[?|?]]|?]; tauto.
  - split; [done|]. split; [done|]. split; [lia|]. split; [|done].
    intros b. rewrite Hmem. split; [tauto|]. intros [?|[?|[?|[? _]]]]; tauto || done.
Qed.

(** [expand_gacha_name_base_variants] at a name with a separator: four
    variants, the camel-case form among them. *)
Lemma expand_gacha_name_base_variants_witness :
  "TokenWheel" ∈ expand_gacha_name_base "token wheel".
Proof.
  apply (expand_gacha_name_base_variants "token wheel").
  right. right. right. split; reflexivity.
Defined.

(** X13. The expansion of a list of names: its members are exactly the
    casing variants of the given names and their forms with "-2" to "-6";
    every given name is among them and the first given name comes first;
    no candidate occurs twice, also when names are given twice or share a
    variant; and there are at most 24 candidates per given name. *)
Theorem expand_gacha_values_members (values_list : list string) :
  NoDup (expand_gacha_values values_list) /\
  (forall x, x ∈ expand_gacha_values values_list <->
     exists v b, v ∈ values_list /\ b ∈ expand_gacha_name_base v /\
                 x ∈ with_suffixes b) /\
  (forall v, v ∈ values_list -> v ∈ expand_gacha_values values_list) /\
  head (expand_gacha_values values_list) = head values_list /\
  (length (expand_gacha_values values_list) <= 24 * length values_list)%nat.
Proof.
  unfold expand_gacha_values. rewrite dedupe_first_seen.
  split; [apply first_seen_NoDup|]. split; [|split; [|split]].
  - intros x. rewrite elem_of_first_seen, list_elem_of_bind. split.
    + intros (v & (b & Hx & Hb)%list_elem_of_bind & Hv). by exists v, b.
    + intros (v & b & Hv & Hb & Hx). exists v. split; [|done].
      apply list_elem_of_bind. by exists b.
  - intros v Hv. rewrite elem_of_first_seen.
    apply list_elem_of_bind. exists v. split; [|done].
    apply list_elem_of_bind. exists v. split; [|apply expand_gacha_name_base_orig].
    rewrite with_suffixes_unfold. left.
  - destruct values_list as [|v rest]; [done|].
    rewrite bind_cons.
    pose proof (expand_gacha_name_base_head v) as Hh.
    destruct (expand_gacha_name_base v) as [|b bs]; [done|].
    cbn in Hh. inversion Hh; subst b.
    rewrite bind_cons, with_suffixes_unfold. cbn [app].
    apply first_seen_head.
  - etrans; [apply first_seen_length|].
    induction values_list as [|v rest IH]; [done|].
    rewrite bind_cons, length_app, length_with_suffixes_bind. cbn [length].
    pose proof (expand_gacha_name_base_length v). lia.
Qed.

(** [expand_gacha_values_members]: a name given twice is expanded once. *)
Lemma expand_gacha_values_members_witness :
  "skull-3" ∈ expand_gacha_values ["Skull"; "Skull"] /\
  NoDup (expand_gacha_values ["Skull"; "Skull"]).
Proof.
  destruct (expand_gacha_values_members ["Skull"; "Skull"]) as (Hnd & Hmem & _).
  split; [|exact Hnd]. apply Hmem.
  exists "Skull", "skull". split; [left|]. split.
  - apply (bool_decide_unpack _). by vm_compute.
  - apply (bool_decide_unpack _). by vm_compute.
Defined.

(** ** The conversation *)

Lemma generate_urls_complete (template : string)
    (tag_values : gmap string (list string)) :
  extract_tags template <> [] ->
  Forall (fun t => values_of tag_values t <> []) (extract_tags template) ->
  (exists text, generate_urls_from_template template tag_values = Raise (ValueError text)) \/
  (exists u urls, generate_urls_from_template template tag_values = Ok (u :: urls)).
Proof.
  intros Hne Hall. rewrite generate_urls_with_tags by done.
  rewrite decide_True by done.
  destruct (check_total _ _ _) as [r|e] eqn:Hc.
  - right.
    pose proof (length_product (working_list tag_values <$> extract_tags template)) as Hl.
    pose proof (Zprod_pos _ (working_lengths_pos template tag_values Hall)) as Hp.
    unfold working_lengths in Hp. rewrite <- Hl in Hp.
    destruct (product _) as [|c cs]; [cbn in Hp; lia|].
    rewrite fmap_cons. eauto.
  - left.
    pose proof (check_total_spec overflow_message
                  (working_list tag_values <$> extract_tags template) 1) as Hs.
    rewrite Hc in Hs. destruct Hs as (j & _ & -> & _). eauto.
Qed.

Lemma finish_tag_input_complete (find_first_live_url : list string -> option string)
    (template : string) (tags : list string)
    (tag_values : gmap string (list string)) :
  tags <> [] ->
  ((template = "BANNER" /\ tags = extract_tags TEMPLATE_BANNER_OVERVIEW) \/
   (template <> "BANNER" /\ tags = extract_tags template)) ->
  Forall (fun t => values_of tag_values t <> []) tags ->
  (NothingGenerated ∉ finish_tag_input find_first_live_url (Some template) tag_values) /\
  (GenerationFailed ∉ finish_tag_input find_first_live_url (Some template) tag_values).
Proof.
  intros Hne Htm Hall.
  assert (Hb : (exists text, build_urls (Some template) tag_values = Raise (ValueError text)) \/
               (exists u urls, build_urls (Some template) tag_values = Ok (u :: urls))).
  { unfold build_urls. destruct Htm as [[-> ->]|[Hnb ->]].
    - rewrite decide_True by done. cbn zeta.
      assert (Hs : extract_tags TEMPLATE_BANNER_SPLASH
                   = extract_tags TEMPLATE_BANNER_OVERVIEW) by by vm_compute.
      destruct (generate_urls_complete TEMPLATE_BANNER_SPLASH tag_values)
        as [[text ->]|(u & urls & ->)]; [by rewrite Hs..| |].
      + left. eauto.
      + destruct (generate_urls_complete TEMPLATE_BANNER_OVERVIEW tag_values)
          as [[text ->]|(u' & urls' & ->)]; [done..| |].
        * left. eauto.
        * right. cbn. eauto.
    - rewrite decide_False by congruence.
      by apply generate_urls_complete. }
  unfold finish_tag_input.
  destruct Hb as [[text ->]|(u & urls & ->)].
  - split; intros [=]%list_elem_of_singleton.
  - destruct (find_first_live_url _); split; intros H;
      repeat (apply elem_of_cons in H as [[=]|H]); by apply elem_of_nil in H.
Qed.

Lemma option_button_callback_consistent (opt : string) (previous : user_data) :
  consistent (option_button_callback opt previous).1.2 /\
  (option_button_callback opt previous).2 = Return ASKING_TAGS.
Proof.
  unfold option_button_callback.
  destruct (decide (opt = "link_gacha")); [|destruct (decide (opt = "link_banner"))].
  - split; [|done]. right. split; [done|].
    exists (extract_tags TEMPLATE_GACHA), 0%nat, ∅, TEMPLATE_GACHA.
    repeat split; try done.
    + vm_compute. lia.
    + intros j t Hj. lia.
    + right. split; [|done]. by vm_compute.
  - split; [|done]. right. split; [done|].
    exists (extract_tags TEMPLATE_BANNER_OVERVIEW), 0%nat, ∅, "BANNER".
    repeat split; try done.
    + vm_compute. lia.
    + intros j t Hj. lia.
    + by left.
  - split; [|done]. by left.
Qed.

Lemma handle_tag_input_consistent (find_first_live_url : list string -> option string)
    (text : option string) (ud : user_data) :
  consistent ud ->
  consistent (handle_tag_input find_first_live_url text ud).1.2 /\
  (exists state, (handle_tag_input find_first_live_url text ud).2 = Return state) /\
  (IndexTagError ∉ (handle_tag_input find_first_live_url text ud).1.1) /\
  (Reply NothingGenerated ∉ (handle_tag_input find_first_live_url text ud).1.1) /\
  (Reply GenerationFailed ∉ (handle_tag_input find_first_live_url text ud).1.1).
Proof.
  intros Hc. unfold handle_tag_input. cbn zeta.
  set (stripped := strip (default "" text)).
  destruct (decide (stripped = "")) as [|Hne].
  { cbn. repeat split; eauto; by intros [=]%list_elem_of_singleton. }
  destruct Hc as [Hexp|[Hexp Hc]].
  { rewrite Hexp. cbn [default from_option id].
    unfold receive_custom_template.
    destruct (extract_tags stripped) as [|first rest] eqn:Ht.
    - cbn. repeat split; eauto; try by intros [=]%list_elem_of_singleton. by left.
    - destruct (negb _).
      + cbn. repeat split; eauto; try by intros [=]%list_elem_of_singleton. by left.
      + cbn. repeat split; eauto; try by intros [=]%list_elem_of_singleton.
        right. split; [done|].
        exists (first :: rest), 0%nat, ∅, stripped. cbn.
        repeat split; try done; [lia|intros; lia|].
        right. split; [|done]. intros ->. by vm_compute in Ht. }
  rewrite Hexp.
  destruct Hc as (tags & idx & values & template & Htags & Hidx & Hvalues & Htm
                  & Hlt & Hfilled & Hkind).
  rewrite Htags, Hidx, Hvalues. cbn [default from_option id].
  rewrite decide_False by lia.
  destruct (lookup_lt_is_Some_2 tags idx Hlt) as [tag Htag]. rewrite Htag.
  destruct (decide (split_values stripped = [])) as [|Hvals].
  { cbn. repeat split; eauto; try by intros [=]%list_elem_of_singleton.
    right. split; [done|]. by exists tags, idx, values, template. }
  assert (Hfilled' : forall j t, (j < S idx)%nat -> tags !! j = Some t ->
            values_of (<[tag := split_values stripped]> values) t <> []).
  { intros j t Hj Ht. unfold values_of.
    destruct (decide (t = tag)) as [->|Hneq].
    - by rewrite lookup_insert_eq.
    - rewrite lookup_insert_ne by done.
      apply (Hfilled j); [|done].
      destruct (decide (j = idx)) as [->|]; [congruence|lia]. }
  destruct (decide (idx + 1 < length tags)%nat) as [Hnext|Hlast].
  - destruct (lookup_lt_is_Some_2 tags (idx + 1) Hnext) as [nxt Hnxt]. rewrite Hnxt.
    cbn. repeat split; eauto; try by intros [=]%list_elem_of_singleton.
    right. split; [done|].
    exists tags, (idx + 1)%nat, (<[tag := split_values stripped]> values), template.
    cbn. repeat split; try done.
    intros j t Hj. apply Hfilled'. lia.
  - cbn [fst snd with_values ud_template ud_values default from_option id]. rewrite Htm.
    destruct (finish_tag_input_complete find_first_live_url template tags
                (<[tag := split_values stripped]> values)) as [Hn Hg].
    + intros ->. cbn in Hlt. lia.
    + done.
    + apply Forall_forall. intros t [j Hj]%list_elem_of_lookup.
      apply (Hfilled' j); [|done]. apply lookup_lt_Some in Hj. lia.
    + repeat split; eauto.
      * right. split; [done|].
        exists tags, idx, (<[tag := split_values stripped]> values), template.
        cbn. repeat split; try done.
        intros j t Hj. apply Hfilled'. lia.
      * intros (r & [=] & _)%list_elem_of_fmap.
      * intros (r & [= <-] & Hr)%list_elem_of_fmap. done.
      * intros (r & [= <-] & Hr)%list_elem_of_fmap. done.
Qed.

(** With every call returning, the handlers with failing calls are the
    handlers above. *)
Lemma awaited_option_button_callback (opt : string) (previous : user_data) :
  Awaited.option_button_callback (fun _ => true) opt previous =
  option_button_callback opt previous.
Proof.
  unfold Awaited.option_button_callback, option_button_callback. cbn [negb].
  destruct (decide (opt = "link_gacha")); [|destruct (decide (opt = "link_banner"))];
    cbn zeta.
  - by destruct (extract_tags TEMPLATE_GACHA).
  - by destruct (ud_tags _) as [[|? ?]|].
  - done.
Qed.

(** Whatever calls fail, [handle_tag_input] writes [user_data] as it does
    when all return (on every path the writes come before the first call),
    sends some of the same messages, and either ends the same way or with
    the failed call. *)
Lemma awaited_handle_tag_input (find_first_live_url : list string -> option string)
    (sent : nat -> bool) (text : option string) (ud : user_data) :
  (Awaited.handle_tag_input find_first_live_url sent (Some text) ud).1.2 =
    (handle_tag_input find_first_live_url text ud).1.2 /\
  (forall m, m ∈ (Awaited.handle_tag_input find_first_live_url sent (Some text) ud).1.1 ->
             m ∈ (handle_tag_input find_first_live_url text ud).1.1) /\
  ((Awaited.handle_tag_input find_first_live_url sent (Some text) ud).2 =
     (handle_tag_input find_first_live_url text ud).2 \/
   (Awaited.handle_tag_input find_first_live_url sent (Some text) ud).2 =
     Crash CallFailed) /\
  ((forall k, sent k = true) ->
   Awaited.handle_tag_input find_first_live_url sent (Some text) ud =
     handle_tag_input find_first_live_url text ud).
Proof.
  assert (Hone : forall m ud' state,
    (Awaited.reply_text sent m ud' state).1.2 = ud' /\
    (forall m', m' ∈ (Awaited.reply_text sent m ud' state).1.1 -> m' ∈ [m]) /\
    ((Awaited.reply_text sent m ud' state).2 = Return state \/
     (Awaited.reply_text sent m ud' state).2 = Crash CallFailed) /\
    ((forall k, sent k = true) ->
     Awaited.reply_text sent m ud' state = ([m], ud', Return state))).
  { intros m ud' state. unfold Awaited.reply_text.
    destruct (sent 0%nat) eqn:H0; cbn.
    - repeat split; auto.
    - repeat split; auto; [by intros m' ?%elem_of_nil|].
      intros Hall. by rewrite Hall in H0. }
  unfold Awaited.handle_tag_input, handle_tag_input. cbn zeta.
  destruct (decide (strip (default "" text) = "")); [apply Hone|].
  destruct (default false (ud_expecting_template ud)).
  { destruct (receive_custom_template _) as [r [[template tags]|]]; apply Hone. }
  destruct (decide (length (default [] (ud_tags ud)) <=
                    default 0%nat (ud_current_index ud))%nat); [apply Hone|].
  destruct (default [] (ud_tags ud) !! default 0%nat (ud_current_index ud));
    [|by repeat split; auto].
  destruct (decide (split_values _ = [])); [apply Hone|].
  destruct (ud_values ud) as [values|]; [|by repeat split; auto].
  destruct (decide (_ + 1 < _)%nat).
  { destruct (_ !! (_ + 1)%nat); [apply Hone|by repeat split; auto]. }
  unfold finish_tag_input.
  destruct (build_urls _ _) as [[|u urls]|[msg| | |]];
    try (cbn [fmap list_fmap]; apply Hone).
  cbn [fst snd].
  destruct (sent 0%nat) eqn:H0; cbn [negb].
  2:{ cbn. repeat split; auto; [by intros m ?%elem_of_nil|].
      intros Hall. by rewrite Hall in H0. }
  destruct (sent 1%nat) eqn:H1; cbn [negb].
  2:{ cbn. repeat split; auto.
      - intros m ->%list_elem_of_singleton.
        destruct (find_first_live_url _); cbn; left.
      - intros Hall. by rewrite Hall in H1. }
  destruct (sent 2%nat) eqn:H2; cbn [negb].
  2:{ cbn. repeat split; auto.
      - intros m Hm. destruct (find_first_live_url _); cbn;
          rewrite !elem_of_cons in *; tauto.
      - intros Hall. by rewrite Hall in H2. }
  destruct (find_first_live_url _); [by repeat split; auto|].
  destruct (sent 3%nat) eqn:H3; cbn [negb].
  - by repeat split; auto.
  - cbn. repeat split; auto.
    + intros m Hm. rewrite !elem_of_cons in *. tauto.
    + intros Hall. by rewrite Hall in H3.
Qed.

Lemma option_button_callback_settled (sent : nat -> bool) (opt : string)
    (ud : user_data) :
  settled ud ->
  settled (Awaited.option_button_callback sent opt ud).1.2 /\
  ((Awaited.option_button_callback sent opt ud).2 = Return ASKING_TAGS \/
   (Awaited.option_button_callback sent opt ud).2 = Crash CallFailed).
Proof.
  intros Hud.
  pose proof (option_button_callback_consistent opt ud) as [Hc Hr].
  unfold option_button_callback in Hc, Hr.
  unfold Awaited.option_button_callback.
  destruct (sent 0%nat); cbn [negb]; [|by auto].
  destruct (decide (opt = "link_gacha")); [|destruct (decide (opt = "link_banner"))];
    cbn zeta in *.
  - destruct (sent 1%nat); cbn [negb].
    + destruct (extract_tags TEMPLATE_GACHA) as [|first rest]; [done|].
      destruct (sent 2%nat); cbn [negb]; split; auto; by do 2 right.
    + split; [|by auto]. right. by left.
  - destruct (ud_tags _) as [[|first rest]|]; try done.
    destruct (sent 1%nat); cbn [negb]; split; auto; by do 2 right.
  - destruct (sent 1%nat); cbn [negb]; split; auto; by do 2 right.
Qed.

Lemma handle_tag_input_unsettled (find_first_live_url : list string -> option string)
    (sent : nat -> bool) (text : option string) (ud : user_data) :
  ud = cleared \/ ud = interrupted ->
  (Awaited.handle_tag_input find_first_live_url sent (Some text) ud).1.2 = ud /\
  (forall m, m ∈ (Awaited.handle_tag_input find_first_live_url sent (Some text) ud).1.1 ->
             m = TemplateMissing \/ m = IndexTagError) /\
  ((exists state,
      (Awaited.handle_tag_input find_first_live_url sent (Some text) ud).2 = Return state) \/
   (Awaited.handle_tag_input find_first_live_url sent (Some text) ud).2 = Crash CallFailed).
Proof.
  intros Hud. unfold Awaited.handle_tag_input. cbn zeta.
  assert (Hone : forall m state,
    (Awaited.reply_text sent m ud state).1.2 = ud /\
    (forall m', m' ∈ (Awaited.reply_text sent m ud state).1.1 -> m' = m) /\
    ((exists state', (Awaited.reply_text sent m ud state).2 = Return state') \/
     (Awaited.reply_text sent m ud state).2 = Crash CallFailed)).
  { intros m state. unfold Awaited.reply_text. destruct (sent 0%nat); cbn.
    - repeat split; eauto. by intros m' ->%list_elem_of_singleton.
    - repeat split; eauto. by intros m' ?%elem_of_nil. }
  destruct (decide (strip (default "" text) = "")).
  { destruct (Hone TemplateMissing ASKING_TAGS) as (? & Hm & ?).
    split; [done|]. split; [|done]. intros m ->%Hm. by left. }
  assert (Hexp : default false (ud_expecting_template ud) = false)
    by (by destruct Hud as [-> | ->]).
  assert (Htags : ud_tags ud = None) by (by destruct Hud as [-> | ->]).
  assert (Hidx : ud_current_index ud = None) by (by destruct Hud as [-> | ->]).
  rewrite Hexp, Htags, Hidx. cbn [default from_option id length].
  rewrite decide_True by lia.
  destruct (Hone IndexTagError END) as (? & Hm & ?).
  split; [done|]. split; [|done]. intros m ->%Hm. by right.
Qed.

Lemma handle_tag_input_settled (find_first_live_url : list string -> option string)
    (sent : nat -> bool) (update_message : option (option string))
    (ud : user_data) :
  settled ud ->
  settled (Awaited.handle_tag_input find_first_live_url sent update_message ud).1.2 /\
  ((exists state,
      (Awaited.handle_tag_input find_first_live_url sent update_message ud).2
        = Return state) \/
   (Awaited.handle_tag_input find_first_live_url sent update_message ud).2
     = Crash CallFailed \/
   (update_message = None /\
    (Awaited.handle_tag_input find_first_live_url sent update_message ud).2
      = Crash AttributeError)) /\
  (Reply NothingGenerated
     ∉ (Awaited.handle_tag_input find_first_live_url sent update_message ud).1.1) /\
  (Reply GenerationFailed
     ∉ (Awaited.handle_tag_input find_first_live_url sent update_message ud).1.1) /\
  (IndexTagError
     ∈ (Awaited.handle_tag_input find_first_live_url sent update_message ud).1.1 ->
   ud = cleared \/ ud = interrupted).
Proof.
  intros Hud. destruct update_message as [text|].
  2:{ cbn. split; [done|]. split; [by right; right|].
      split; [by intros ?%elem_of_nil|]. split; by intros ?%elem_of_nil. }
  assert (Hcases : (ud = cleared \/ ud = interrupted) \/ consistent ud)
    by (unfold settled in Hud; tauto).
  destruct Hcases as [Hun|Hc].
  - destruct (handle_tag_input_unsettled find_first_live_url sent text ud Hun)
      as (Hst & Hm & Hout).
    rewrite Hst. split; [done|]. split; [tauto|].
    split; [by intros [?|?]%Hm|]. split; [by intros [?|?]%Hm|]. done.
  - destruct (awaited_handle_tag_input find_first_live_url sent text ud)
      as (Hst & Hm & Hout & _).
    destruct (handle_tag_input_consistent find_first_live_url text ud Hc)
      as (Hc' & [state Hret] & Hidx & Hnone & Hfail).
    rewrite Hst. split; [by do 2 right|]. split.
    { destruct Hout as [Hout|Hout]; [left; exists state; congruence|by right; left]. }
    split; [by intros ?%Hm|]. split; [by intros ?%Hm|].
    by intros ?%Hm.
Qed.

Lemma reachable_settled (find_first_live_url : list string -> option string)
    (ud : user_data) :
  Awaited.reachable find_first_live_url ud -> settled ud.
Proof.
  induction 1 as [|sent opt ud _ IH|sent update_message ud _ IH].
  - by left.
  - by apply option_button_callback_settled.
  - by apply handle_tag_input_settled.
Qed.

(** X14. The handlers have no [try] around their Telegram calls, so any of
    them may raise and leave [user_data] half written.  Even so, on every
    [user_data] that runs of the two handlers can leave behind (starting
    from the empty one, in any order, with any calls failing): the
    handlers' own subscripts never fail ([tags[0]], [tags[idx]],
    [tags[idx + 1]] and [user_data['values']] are there whenever they are
    read), so a handler returns, or a call of it raised, or the update had
    no message; the replies for an empty candidate list and for an
    exception other than [ValueError] are never sent; and the index-error
    reply is sent only when no tags are stored, which is so only before
    anything was stored or after a gacha button whose first edit failed. *)
Theorem conversation_safe (find_first_live_url : list string -> option string)
    (ud : user_data) :
  Awaited.reachable find_first_live_url ud ->
  (forall sent opt,
     (Awaited.option_button_callback sent opt ud).2 = Return ASKING_TAGS \/
     (Awaited.option_button_callback sent opt ud).2 = Crash CallFailed) /\
  (forall sent update_message,
     ((exists state,
         (Awaited.handle_tag_input find_first_live_url sent update_message ud).2
           = Return state) \/
      (Awaited.handle_tag_input find_first_live_url sent update_message ud).2
        = Crash CallFailed \/
      (update_message = None /\
       (Awaited.handle_tag_input find_first_live_url sent update_message ud).2
         = Crash AttributeError)) /\
     (Reply NothingGenerated
        ∉ (Awaited.handle_tag_input find_first_live_url sent update_message ud).1.1) /\
     (Reply GenerationFailed
        ∉ (Awaited.handle_tag_input find_first_live_url sent update_message ud).1.1) /\
     (IndexTagError
        ∈ (Awaited.handle_tag_input find_first_live_url sent update_message ud).1.1 ->
      ud = cleared \/ ud = interrupted)).
Proof.
  intros Hr%reachable_settled. split.
  - intros sent opt. by apply option_button_callback_settled.
  - intros sent update_message.
    by apply (handle_tag_input_settled find_first_live_url sent update_message ud).
Qed.

(** [conversation_safe] after a gacha button whose first edit failed: the
    next text is answered with the index-error reply, and this is the
    [user_data] the theorem names. *)
Lemma conversation_safe_witness :
  let find := fun _ : list string => None in
  let ud := (Awaited.option_button_callback (fun k => bool_decide (k = 0%nat))
               "link_gacha" cleared).1.2 in
  Awaited.reachable find ud /\
  (Awaited.handle_tag_input find (fun _ => true) (Some (Some "50")) ud).1.1
    = [IndexTagError] /\
  (ud = cleared \/ ud = interrupted).
Proof.
  intros find ud.
  assert (Hr : Awaited.reachable find ud).
  { apply Awaited.reachable_press, Awaited.reachable_start. }
  split; [exact Hr|].
  assert (Hsent : (Awaited.handle_tag_input find (fun _ => true) (Some (Some "50")) ud).1.1
                  = [IndexTagError]) by reflexivity.
  split; [exact Hsent|].
  apply (proj2 (conversation_safe find ud Hr) (fun _ => true) (Some (Some "50"))).
  rewrite Hsent. left.
Defined.

(** ** Collecting the values *)

Lemma mem_lstrip (c : ascii) (s : string) :
  Str.mem c (lstrip s) = true -> Str.mem c s = true.
Proof.
  induction s as [|d s IH]; [done|]. cbn [lstrip].
  destruct (is_space d); [|done]. intros H%IH. cbn [Str.mem]. rewrite H.
  by destruct (decide (c = d)).
Qed.

Lemma rstrip_cons (c : ascii) (s : string) :
  rstrip (String c s) = "" \/ exists r, rstrip (String c s) = String c r.
Proof. cbn [rstrip]. destruct (rstrip s); [destruct (is_space c)|]; eauto. Qed.

Lemma mem_rstrip (c : ascii) (s : string) :
  Str.mem c (rstrip s) = true -> Str.mem c s = true.
Proof.
  induction s as [|d s IH]; [done|]. cbn [rstrip Str.mem].
  destruct (rstrip s) as [|e r] eqn:Hr.
  - destruct (is_space d); [done|]. cbn [Str.mem].
    by destruct (decide (c = d)).
  - cbn [Str.mem]. destruct (decide (c = d)); [done|]. exact IH.
Qed.

Lemma rstrip_idemp (s : string) : rstrip (rstrip s) = rstrip s.
Proof.
  induction s as [|c s IH]; [done|]. cbn [rstrip].
  destruct (rstrip s) as [|e r] eqn:Hr.
  - destruct (is_space c) eqn:Hc; [done|]. cbn [rstrip]. by rewrite Hc.
  - cbn [rstrip] in IH |- *. by rewrite IH.
Qed.

Lemma lstrip_clean (s : string) :
  match s with String c _ => is_space c = false | EmptyString => True end ->
  lstrip s = s.
Proof. destruct s as [|c s]; [done|]. cbn [lstrip]. by intros ->. Qed.

Lemma lstrip_starts_clean (s : string) :
  match lstrip s with String c _ => is_space c = false | EmptyString => True end.
Proof.
  induction s as [|c s IH]; [done|]. cbn [lstrip].
  by destruct (is_space c) eqn:Hc.
Qed.

Lemma strip_idemp (s : string) : strip (strip s) = strip s.
Proof.
  unfold strip. rewrite lstrip_clean; [apply rstrip_idemp|].
  pose proof (lstrip_starts_clean s) as H.
  destruct (lstrip s) as [|c t]; [done|].
  destruct (rstrip_cons c t) as [->|[r ->]]; done.
Qed.

Lemma mem_strip (c : ascii) (s : string) :
  Str.mem c s = false -> Str.mem c (strip s) = false.
Proof.
  intros H. destruct (Str.mem c (strip s)) eqn:Hs; [|done].
  apply mem_rstrip, mem_lstrip in Hs. congruence.
Qed.

Lemma split_no_sep (sep : ascii) (s piece : string) :
  piece ∈ split sep s -> Str.mem sep piece = false.
Proof.
  revert piece. induction s as [|c s IH]; intros piece.
  - by intros ->%list_elem_of_singleton.
  - cbn [split]. destruct (decide (c = sep)) as [->|Hc].
    + intros [->|H]%elem_of_cons; [done|]. by apply IH.
    + destruct (split sep s) as [|p ps].
      * intros ->%list_elem_of_singleton. cbn [Str.mem].
        by rewrite decide_False by congruence.
      * intros [->|H]%elem_of_cons.
        -- cbn [Str.mem]. rewrite decide_False by congruence. apply IH. left.
        -- apply IH. by right.
Qed.

Lemma elem_of_split_values (text v : string) :
  v ∈ split_values text <->
  v <> "" /\ exists piece, piece ∈ split "," text /\ v = strip piece.
Proof.
  unfold split_values. rewrite list_elem_of_bind. split.
  - intros (piece & Hv & Hp). destruct (decide (strip piece = "")) as [|Hne].
    + by apply elem_of_nil in Hv.
    + apply list_elem_of_singleton in Hv as ->. eauto.
  - intros (Hne & piece & Hp & ->). exists piece. split; [|done].
    rewrite decide_False by done. left.
Qed.

(** X18. The values read from one answer (line 382): each is the stripped
    form of a piece of the text between commas, is not empty, holds no
    comma and has no white space left at either end; and no value is read
    exactly when every piece is blank. *)
Theorem split_values_clean (text : string) :
  (forall v, v ∈ split_values text ->
     v <> "" /\ Str.mem "," v = false /\ strip v = v /\
     exists piece, piece ∈ split "," text /\ v = strip piece) /\
  (split_values text = [] <->
     forall piece, piece ∈ split "," text -> strip piece = "").
Proof.
  split.
  - intros v (Hne & piece & Hp & ->)%elem_of_split_values.
    split; [done|]. split; [|split; [apply strip_idemp|eauto]].
    by apply mem_strip, (split_no_sep "," text).
  - split.
    + intros Hnil piece Hp. destruct (decide (strip piece = "")) as [|Hne]; [done|].
      assert (H : strip piece ∈ split_values text)
        by (apply elem_of_split_values; eauto).
      rewrite Hnil in H. by apply elem_of_nil in H.
    + intros Hall. destruct (split_values text) as [|v vs] eqn:Hv; [done|].
      assert (H : v ∈ split_values text) by (rewrite Hv; left).
      apply elem_of_split_values in H as (Hne & piece & Hp & ->).
      by apply Hall in Hp.
Qed.

(** [split_values_clean] on an answer with blanks and an empty piece. *)
Lemma split_values_clean_witness :
  "b c" ∈ split_values " a ,, b c " /\ strip "b c" = "b c".
Proof.
  assert (H : "b c" ∈ split_values " a ,, b c ")
    by (apply (bool_decide_unpack _); by vm_compute).
  split; [exact H|].
  by destruct (proj1 (split_values_clean " a ,, b c ") "b c" H) as (_ & _ & Hs & _).
Defined.

(** One answer in a collecting state. *)
Lemma handle_tag_input_values (find_first_live_url : list string -> option string)
    (text : option string) (ud : user_data) (tags : list string) (idx : nat)
    (values : gmap string (list string)) (tag : string) :
  default false (ud_expecting_template ud) = false ->
  ud_tags ud = Some tags -> ud_current_index ud = Some idx ->
  ud_values ud = Some values -> tags !! idx = Some tag ->
  split_values (strip (default "" text)) <> [] ->
  handle_tag_input find_first_live_url text ud =
    let values' := <[tag := split_values (strip (default "" text))]> values in
    match tags !! (idx + 1)%nat with
    | Some nxt =>
        ([AskNext nxt], with_current_index (idx + 1) (with_values values' ud),
         Return ASKING_TAGS)
    | None =>
        (Reply <$> finish_tag_input find_first_live_url (ud_template ud) values',
         with_values values' ud, Return END)
    end.
Proof.
  intros Hexp Htags Hidx Hvalues Htag Hvals. unfold handle_tag_input. cbn zeta.
  rewrite decide_False by (intros Hs; by rewrite Hs in Hvals).
  rewrite Hexp, Htags, Hidx, Hvalues. cbn [default from_option id].
  pose proof (lookup_lt_Some _ _ _ Htag) as Hlt.
  rewrite decide_False by lia. rewrite Htag.
  rewrite decide_False by done.
  destruct (decide (idx + 1 < length tags)%nat) as [Hnext|Hlast].
  - destruct (lookup_lt_is_Some_2 tags (idx + 1) Hnext) as [nxt Hnxt].
    by rewrite Hnxt.
  - rewrite (proj2 (lookup_ge_None tags (idx + 1))) by lia. done.
Qed.

Lemma collect_values_cons (values : gmap string (list string))
    (tag : string) (tags : list string) (text : option string)
    (texts : list (option string)) :
  collect_values values (tag :: tags) (text :: texts) =
  collect_values (<[tag := split_values (strip (default "" text))]> values)
    tags texts.
Proof. done. Qed.

Lemma with_current_index_same (ud : user_data) (idx : nat) :
  ud_current_index ud = Some idx -> with_current_index idx ud = ud.
Proof. destruct ud. cbn. by intros ->. Qed.

Lemma converse_collect (find_first_live_url : list string -> option string)
    (texts : list (option string)) :
  forall (ud : user_data) (tags : list string) (idx : nat)
         (values : gmap string (list string)),
    default false (ud_expecting_template ud) = false ->
    ud_tags ud = Some tags -> ud_current_index ud = Some idx ->
    ud_values ud = Some values ->
    texts <> [] -> (idx + length texts = length tags)%nat ->
    Forall (fun text => split_values (strip (default "" text)) <> []) texts ->
    converse find_first_live_url texts ud =
      ((AskNext <$> drop (S idx) tags) ++
       (Reply <$> finish_tag_input find_first_live_url (ud_template ud)
                    (collect_values values (drop idx tags) texts)),
       with_current_index (length tags - 1)
         (with_values (collect_values values (drop idx tags) texts) ud),
       END).
Proof.
  induction texts as [|text rest IH];
    intros ud tags idx values Hexp Htags Hidx Hvalues Hne Hlen Hall; [done|].
  cbn [length] in Hlen. apply Forall_cons in Hall as [Htext Hrest].
  assert (Hlt : (idx < length tags)%nat) by lia.
  destruct (lookup_lt_is_Some_2 tags idx Hlt) as [tag Htag].
  cbn [converse].
  rewrite (handle_tag_input_values _ _ _ tags idx values tag) by done.
  rewrite (drop_S _ _ _ Htag), collect_values_cons. cbn zeta.
  destruct rest as [|text' rest].
  - rewrite (proj2 (lookup_ge_None tags (idx + 1))) by (cbn in Hlen; lia).
    rewrite (drop_ge tags (S idx)) by (cbn in Hlen; lia).
    cbn [length] in Hlen. replace (length tags - 1)%nat with idx by lia.
    by rewrite with_current_index_same.
  - assert (Hnext : (idx + 1 < length tags)%nat) by (cbn in Hlen; lia).
    destruct (lookup_lt_is_Some_2 tags (idx + 1) Hnext) as [nxt Hnxt].
    rewrite Hnxt.
    rewrite (IH _ tags (idx + 1)%nat
               (<[tag := split_values (strip (default "" text))]> values));
      [|done..|cbn in *; lia|done].
    replace (idx + 1)%nat with (S idx) in * by lia.
    rewrite (drop_S _ _ _ Hnxt). cbn. done.
Qed.

Lemma collect_values_absent (tags : list string) :
  forall (values : gmap string (list string)) (texts : list (option string))
         (t : string),
    t ∉ tags -> collect_values values tags texts !! t = values !! t.
Proof.
  induction tags as [|tag tags IH]; intros values texts t Ht; [done|].
  destruct texts as [|text texts]; [done|].
  apply not_elem_of_cons in Ht as [Hne Ht].
  rewrite collect_values_cons, IH by done. by rewrite lookup_insert_ne.
Qed.

Lemma collect_values_last (tags : list string) :
  forall (values : gmap string (list string)) (texts : list (option string))
         (j : nat) (t : string) (text : option string),
    tags !! j = Some t -> texts !! j = Some text ->
    (forall k, (j < k)%nat -> tags !! k <> Some t) ->
    collect_values values tags texts !! t
      = Some (split_values (strip (default "" text))).
Proof.
  induction tags as [|tag tags IH]; intros values texts j t text Hj Ht Hlast;
    [done|].
  destruct texts as [|text0 texts]; [done|].
  rewrite collect_values_cons. destruct j as [|j].
  - cbn in Hj, Ht. injection Hj as ->. injection Ht as ->.
    rewrite collect_values_absent; [by rewrite lookup_insert_eq|].
    intros [k Hk]%list_elem_of_lookup. by apply (Hlast (S k)); [lia|].
  - apply (IH _ _ j); [done..|].
    intros k Hk. apply (Hlast (S k)). lia.
Qed.

(** X15. After the gacha or the banner button the dialogue asks for the
    tags of the preset template in the order of their markers (V, G, E, T
    and V, T, E): when every answer holds a value, the conversation ends
    with the answer to the last tag, each earlier answer is followed by the
    prompt for the next tag, and the candidates are built from the values
    read from the answers, for the gacha template or the banner marker. *)
Theorem preset_conversation (find_first_live_url : list string -> option string)
    (opt : string) (previous : user_data) (texts : list (option string)) :
  let template :=
    if decide (opt = "link_gacha") then TEMPLATE_GACHA else TEMPLATE_BANNER_OVERVIEW in
  let template_marker :=
    if decide (opt = "link_gacha") then TEMPLATE_GACHA else "BANNER" in
  opt = "link_gacha" \/ opt = "link_banner" ->
  length texts = length (extract_tags template) ->
  Forall (fun text => split_values (strip (default "" text)) <> []) texts ->
  extract_tags template
    = (if decide (opt = "link_gacha") then ["V"; "G"; "E"; "T"] else ["V"; "T"; "E"]) /\
  converse find_first_live_url texts (option_button_callback opt previous).1.2 =
    ((AskNext <$> tail (extract_tags template)) ++
     (Reply <$> finish_tag_input find_first_live_url (Some template_marker)
                  (collect_values ∅ (extract_tags template) texts)),
     with_current_index (length (extract_tags template) - 1)
       (with_values (collect_values ∅ (extract_tags template) texts)
          (option_button_callback opt previous).1.2),
     END).
Proof.
  intros template template_marker Hopt Hlen Hall.
  split; [subst template; destruct (decide (opt = "link_gacha")); by vm_compute|].
  assert (Hne : texts <> []).
  { intros ->. subst template.
    destruct (decide (opt = "link_gacha")); by vm_compute in Hlen. }
  pose proof (converse_collect find_first_live_url texts
                (option_button_callback opt previous).1.2
                (extract_tags template) 0 ∅) as H.
  rewrite drop_0 in H.
  assert (Hm : ud_template (option_button_callback opt previous).1.2
               = Some template_marker).
  { subst template_marker. unfold option_button_callback.
    destruct (decide (opt = "link_gacha")); [done|].
    destruct Hopt as [?| ->]; done. }
  rewrite Hm in H. apply H; try done.
  - unfold option_button_callback.
    destruct (decide (opt = "link_gacha")); [done|]. by destruct Hopt as [?| ->].
  - subst template. unfold option_button_callback.
    destruct (decide (opt = "link_gacha")); [done|]. by destruct Hopt as [?| ->].
  - unfold option_button_callback.
    destruct (decide (opt = "link_gacha")); [done|]. by destruct Hopt as [?| ->].
  - unfold option_button_callback.
    destruct (decide (opt = "link_gacha")); [done|]. by destruct Hopt as [?| ->].
Qed.

(** [preset_conversation] for the banner button: three answers. *)
Lemma preset_conversation_witness :
  (converse (fun _ => None) [Some "40"; Some "2020, 2021"; Some "Ev"]
     (option_button_callback "link_banner" cleared).1.2).1.1 =
  [AskNext "T"; AskNext "E"; Reply (TotalGenerated 12);
   Reply (ProgressStarted 12); Reply NotFound].
Proof.
  destruct (preset_conversation (fun _ => None) "link_banner" cleared
              [Some "40"; Some "2020, 2021"; Some "Ev"]) as [_ ->].
  - by right.
  - reflexivity.
  - repeat constructor; by vm_compute.
  - by vm_compute.
Defined.

(** X16. The custom dialogue, end to end: after the custom button, a
    message whose stripped text holds markers is taken as the template, and
    then one answer per marker (in the order of the markers, a repeated tag
    being asked again) ends the conversation; the candidates are built for
    the stripped template from the values read from the answers. *)
Theorem custom_conversation (find_first_live_url : list string -> option string)
    (previous : user_data) (message_text : option string)
    (texts : list (option string)) :
  let template := strip (default "" message_text) in
  extract_tags template <> [] ->
  length texts = length (extract_tags template) ->
  Forall (fun text => split_values (strip (default "" text)) <> []) texts ->
  let values := collect_values ∅ (extract_tags template) texts in
  (converse find_first_live_url (message_text :: texts)
     (option_button_callback "link_custom" previous).1.2).1.1 =
    (Reply <$> (TemplateAccepted <$> take 1 (extract_tags template))) ++
    (AskNext <$> tail (extract_tags template)) ++
    (Reply <$> finish_tag_input find_first_live_url (Some template) values) /\
  (converse find_first_live_url (message_text :: texts)
     (option_button_callback "link_custom" previous).1.2).2 = END /\
  ud_values (converse find_first_live_url (message_text :: texts)
               (option_button_callback "link_custom" previous).1.2).1.2
    = Some values.
Proof.
  intros template Htags Hlen Hall values.
  assert (Hne : texts <> []).
  { intros ->. cbn in Hlen. by destruct (extract_tags template). }
  cbn [converse]. unfold handle_tag_input. fold template. cbn zeta.
  rewrite decide_False by (intros Hs; by rewrite Hs in Htags).
  cbn [option_button_callback]. unfold option_button_callback.
  rewrite decide_False by done. rewrite decide_False by done.
  cbn [fst snd with_expecting_template ud_expecting_template default from_option id].
  unfold receive_custom_template.
  pose proof (valid_tags_extract_tags template) as Hvalid.
  destruct (extract_tags template) as [|first rest] eqn:Ht; [done|].
  rewrite Hvalid. cbn [negb]. rewrite <- Ht in *.
  erewrite (converse_collect find_first_live_url texts _ (extract_tags template) 0 ∅);
    [|done..].
  rewrite drop_0. fold values. rewrite Ht. cbn. done.
Qed.

(** [custom_conversation] on a template with two markers. *)
Lemma custom_conversation_witness :
  (converse (fun _ => None) [Some " p/[A]/q/[b].png "; Some "x, y"; Some "1,2,,3"]
     (option_button_callback "link_custom" cleared).1.2).1.1 =
  [Reply (TemplateAccepted "A"); AskNext "b"; Reply (TotalGenerated 6);
   Reply (ProgressStarted 6); Reply NotFound].
Proof.
  destruct (custom_conversation (fun _ => None) cleared (Some " p/[A]/q/[b].png ")
              [Some "x, y"; Some "1,2,,3"]) as [-> _].
  - by vm_compute.
  - reflexivity.
  - repeat constructor; by vm_compute.
  - by vm_compute.
Defined.

(** X17. The last answer wins.  The values are stored under the tag, so when
    a tag is asked for more than once (its marker occurs more than once in
    the template) the values kept for it at the end are those of the answer
    to its last prompt; the earlier answers are overwritten. *)
Theorem last_answer_wins (find_first_live_url : list string -> option string)
    (ud : user_data) (tags : list string) (values : gmap string (list string))
    (texts : list (option string)) (j : nat) (t : string) (text : option string) :
  default false (ud_expecting_template ud) = false ->
  ud_tags ud = Some tags -> ud_current_index ud = Some 0%nat ->
  ud_values ud = Some values ->
  length texts = length tags ->
  Forall (fun text => split_values (strip (default "" text)) <> []) texts ->
  tags !! j = Some t -> texts !! j = Some text ->
  (forall k, (j < k)%nat -> tags !! k <> Some t) ->
  exists values',
    ud_values (converse find_first_live_url texts ud).1.2 = Some values' /\
    values' !! t = Some (split_values (strip (default "" text))).
Proof.
  intros Hexp Htags Hidx Hvalues Hlen Hall Hj Ht Hlast.
  assert (Hne : texts <> []) by (intros ->; done).
  rewrite (converse_collect find_first_live_url texts ud tags 0 values) by done.
  rewrite drop_0. eexists. split; [done|].
  by apply (collect_values_last tags values texts j).
Qed.

(** [last_answer_wins] on the template "p/[A]/q/[A].png": the tag A is
    asked twice and the second answer is kept. *)
Lemma last_answer_wins_witness :
  let ud := (converse (fun _ => None) [Some "p/[A]/q/[A].png"]
               (option_button_callback "link_custom" cleared).1.2).1.2 in
  exists values',
    ud_values (converse (fun _ => None) [Some "x"; Some "y, z"] ud).1.2
      = Some values' /\
    values' !! "A" = Some ["y"; "z"].
Proof.
  intros ud.
  apply (last_answer_wins (fun _ => None) ud ["A"; "A"] ∅
           [Some "x"; Some "y, z"] 1 "A" (Some "y, z")); try reflexivity.
  - repeat constructor; by vm_compute.
  - intros [|[|[|k]]] Hk; try lia; done.
Defined.
